(** * Ingestion pipeline of the automotive-news tracker

    A shallow embedding of [api/spider.js] (the ingestion endpoint with its
    HTML reduction and its read-modify-write queue on the blob store) and of
    the two record-creating handlers of [components/EntryForm.tsx], followed
    by the properties the written specification states about them. *)

From Stdlib Require Import List NArith Bool Arith Lia String Ascii DecimalString.
Import ListNotations.
Local Open Scope N_scope.

(** ** JavaScript strings

    A JavaScript string is a sequence of UTF-16 code units; [length],
    [substring], [trim] and regular expressions without the [u] flag all
    work on code units. *)

Definition js_string := list N.

(** Source literals are written as they stand in the source files (UTF-8)
    and decoded to code units. *)

Definition utf16 (cp : N) : js_string :=
  if cp <? 65536 then [cp]
  else [55296 + (cp - 65536) / 1024; 56320 + (cp - 65536) mod 1024].

Fixpoint utf8_decode (bs : list N) (acc : N) (need : nat) : js_string :=
  match bs with
  | [] => []
  | b :: r =>
      match need with
      | O =>
          if b <? 128 then b :: utf8_decode r 0 0
          else if b <? 224 then utf8_decode r (b - 192) 1
          else if b <? 240 then utf8_decode r (b - 224) 2
          else utf8_decode r (b - 240) 3
      | S n =>
          let acc' := acc * 64 + (b - 128) in
          match n with
          | O => utf16 acc' ++ utf8_decode r 0 0
          | S _ => utf8_decode r acc' n
          end
      end
  end.

Definition js (s : string) : js_string :=
  utf8_decode (map N_of_ascii (list_ascii_of_string s)) 0 0.

(** [a === b] on strings. *)
Fixpoint js_eqb (a b : js_string) : bool :=
  match a, b with
  | [], [] => true
  | x :: a', y :: b' => (x =? y) && js_eqb a' b'
  | _, _ => false
  end.

(** [WhiteSpace] and [LineTerminator] of ECMAScript: what [\s] matches and
    what [String.prototype.trim] removes. *)
Definition is_space (c : N) : bool :=
  ((9 <=? c) && (c <=? 13)) || (c =? 32) || (c =? 160) || (c =? 5760)
  || ((8192 <=? c) && (c <=? 8202)) || (c =? 8232) || (c =? 8233)
  || (c =? 8239) || (c =? 8287) || (c =? 12288) || (c =? 65279).

Fixpoint trim_start (s : js_string) : js_string :=
  match s with
  | c :: s' => if is_space c then trim_start s' else s
  | [] => []
  end.

Definition trim (s : js_string) : js_string :=
  rev (trim_start (rev (trim_start s))).

(** [n.toString()] of a non-negative integer, as used in template strings. *)
Definition decimal (n : N) : js_string :=
  js (NilEmpty.string_of_uint (N.to_uint n)).

(** ** Regular expressions

    The patterns of [extractContent] use literals, character classes, a
    greedy or lazy star over one character class, and one capture group.
    The matcher is the backtracking matcher of ECMAScript in
    continuation-passing style: a greedy star tries the longest run first,
    a lazy star the shortest. *)

Inductive regex : Type :=
| Eps
| Chr (p : N -> bool)
| Seq (a b : regex)
| Star (p : N -> bool)
| Lazy (p : N -> bool)
| Group (r : regex).

Declare Scope regex_scope.
Delimit Scope regex_scope with re.
Bind Scope regex_scope with regex.
Infix ";;" := Seq (at level 61, right associativity) : regex_scope.

Module Regex.

Definition result : Type := (list js_string * js_string)%type.
Definition cont : Type := js_string -> list js_string -> option result.

Fixpoint star_greedy (p : N -> bool) (k : cont) (s : js_string)
    (caps : list js_string) : option result :=
  match s with
  | c :: s' =>
      if p c then
        match star_greedy p k s' caps with
        | Some r => Some r
        | None => k s caps
        end
      else k s caps
  | [] => k s caps
  end.

Fixpoint star_lazy (p : N -> bool) (k : cont) (s : js_string)
    (caps : list js_string) : option result :=
  match k s caps with
  | Some r => Some r
  | None =>
      match s with
      | c :: s' => if p c then star_lazy p k s' caps else None
      | [] => None
      end
  end.

Fixpoint run (r : regex) (k : cont) : cont :=
  match r with
  | Eps => k
  | Chr p =>
      fun s caps =>
        match s with
        | c :: s' => if p c then k s' caps else None
        | [] => None
        end
  | Seq a b => run a (run b k)
  | Star p => star_greedy p k
  | Lazy p => star_lazy p k
  | Group a =>
      fun s caps =>
        run a
          (fun s' caps' =>
             k s' (caps' ++ [firstn (List.length s - List.length s')%nat s]))
          s caps
  end.

(** A match anchored at the head of [s]: the captures and the input left
    after the match. *)
Definition exec (r : regex) (s : js_string) : option result :=
  run r (fun s' caps => Some (caps, s')) s [].

(** [s.match(r)] for a pattern without the [g] flag: the leftmost match. *)
Fixpoint search (r : regex) (s : js_string) : option result :=
  match exec r s with
  | Some m => Some m
  | None =>
      match s with
      | [] => None
      | _ :: s' => search r s'
      end
  end.

(** [s.replace(r, rep)] for a pattern with the [g] flag: scan from the left,
    replace the leftmost match, resume after it.  [skip] counts the code
    units of the current match that are still to be dropped.  After an empty
    match the scan copies one code unit and moves on. *)
Fixpoint replace_from (r : regex) (rep : js_string) (s : js_string)
    (skip : nat) : js_string :=
  match s with
  | [] =>
      match exec r [] with
      | Some _ => rep
      | None => []
      end
  | c :: s' =>
      match skip with
      | S n => replace_from r rep s' n
      | O =>
          match exec r s with
          | Some (_, rest) =>
              match (List.length s - List.length rest)%nat with
              | O => rep ++ c :: replace_from r rep s' 0
              | S n => rep ++ replace_from r rep s' n
              end
          | None => c :: replace_from r rep s' 0
          end
      end
  end.

Definition replace_all (r : regex) (rep : js_string) (s : js_string)
  : js_string :=
  replace_from r rep s 0.

End Regex.

(** Character classes. *)
Definition is_chr (c : N) : N -> bool := fun x => x =? c.
Definition not_chr (c : N) : N -> bool := fun x => negb (x =? c).
Definition any_chr : N -> bool := fun _ => true.

(** Canonicalisation of the [i] flag (without [u]): a code unit is compared
    after upper-casing, and a code unit outside ASCII never canonicalises
    into ASCII.  Every literal below is ASCII, so only the ASCII letters
    matter. *)
Definition canon (c : N) : N :=
  if (97 <=? c) && (c <=? 122) then c - 32 else c.

Definition ci_chr (c : N) : N -> bool := fun x => canon x =? canon c.

Definition lit (s : js_string) : regex :=
  fold_right (fun c r => Seq (Chr (is_chr c)) r) Eps s.

Definition lit_ci (s : js_string) : regex :=
  fold_right (fun c r => Seq (Chr (ci_chr c)) r) Eps s.

Definition LT : N := 60.
Definition GT : N := 62.
Definition NL : N := 10.
Definition TAB : N := 9.
Definition SP : N := 32.

(** ** [extractContent] (api/spider.js, lines 4-36) *)

(** [/<title[^>]*>([^<]+)<\/title>/i] *)
Definition title_re : regex :=
  (lit_ci (js "<title") ;; Star (not_chr GT) ;; Chr (is_chr GT) ;;
   Group (Chr (not_chr LT) ;; Star (not_chr LT)) ;;
   lit_ci (js "</title>"))%re.

(** [/<tag[^>]*>[\s\S]*?<\/tag>/gi] *)
Definition block_re (tag : js_string) : regex :=
  (lit_ci (LT :: tag) ;; Star (not_chr GT) ;; Chr (is_chr GT) ;;
   Lazy any_chr ;; lit_ci (js "</" ++ tag ++ [GT]))%re.

(** [/<!--[\s\S]*?-->/g] *)
Definition comment_re : regex :=
  (lit (js "<!--") ;; Lazy any_chr ;; lit (js "-->"))%re.

(** [/<[^>]+>/g] *)
Definition tag_re : regex :=
  (Chr (is_chr LT) ;; Chr (not_chr GT) ;; Star (not_chr GT) ;;
   Chr (is_chr GT))%re.

(** [/\t/g], [/&nbsp;/g], [/\n\s*\n/g] *)
Definition tab_re : regex := Chr (is_chr TAB).
Definition nbsp_re : regex := lit (js "&nbsp;").
Definition blank_re : regex :=
  (Chr (is_chr NL) ;; Star is_space ;; Chr (is_chr NL))%re.

Record extracted : Type := { title : js_string; text : js_string }.

Definition untitled : js_string := js "无标题".

Definition extract_title (html : js_string) : js_string :=
  match Regex.search title_re html with
  | Some (caps, _) => trim (nth 0 caps [])
  | None => untitled
  end.

Definition strip_block (tag : string) (s : js_string) : js_string :=
  Regex.replace_all (block_re (js tag)) [] s.

Definition strip_blocks (html : js_string) : js_string :=
  strip_block "svg"
    (strip_block "iframe"
      (strip_block "footer"
        (strip_block "header"
          (strip_block "nav"
            (Regex.replace_all comment_re []
              (strip_block "style"
                (strip_block "script" html))))))).

Definition clean_text (body : js_string) : js_string :=
  let text := Regex.replace_all tag_re [NL] body in
  trim
    (Regex.replace_all blank_re [NL]
      (Regex.replace_all nbsp_re [SP]
        (Regex.replace_all tab_re [SP] text))).

(** The argument is always a string ([await response.text()]), so no step of
    the [try] block throws and the [catch] branch is never taken. *)
Definition extractContent (html : js_string) : extracted :=
  {| title := extract_title html;
     text := firstn 5000 (clean_text (strip_blocks html)) |}.

(** ** The queue document on the blob store *)

Module Item.
(** A [PendingItem], with the fields in the order [handler] writes them. *)
Record t : Type := {
  id : js_string;
  url : js_string;
  title : js_string;
  text : js_string;
  scrapedAt : js_string;
  source : js_string
}.
End Item.

(** What the body of a stored blob is to [res.json()].  The documents this
    handler writes are arrays of items; the two other cases are a body that
    parses to a value that cannot be spread ([null], a number, an object)
    and a body on which [json()] rejects. *)
Inductive document : Type :=
| JsonArray (items : list Item.t)
| JsonOther
| Malformed.

Record blob : Type := { pathname : js_string; content : document }.

(** The store is the sequence of its blobs in the order [list] returns
    them. *)
Definition store := list blob.

Definition pending_json : js_string := js "pending.json".

Definition is_pending (b : blob) : bool := js_eqb (pathname b) pending_json.

(** [blobs.find(b => b.pathname === 'pending.json')] *)
Definition find_pending (blobs : list blob) : option blob :=
  find is_pending blobs.

(** The queue document the store holds, wherever it is listed. *)
Definition stored (st : store) : option document :=
  option_map content (find_pending st).

(** [put('pending.json', body, { addRandomSuffix: false, ... })]: the blob at
    the fixed path is replaced in place; a path the store does not hold yet
    is created, at the place [rank] of the listing. *)
Definition put (d : document) (rank : nat) (st : store) : store :=
  match find_pending st with
  | Some _ =>
      map (fun b => if is_pending b
                    then {| pathname := pending_json; content := d |}
                    else b) st
  | None =>
      firstn rank st ++ {| pathname := pending_json; content := d |}
        :: skipn rank st
  end.

(** ** One run of [handler] (api/spider.js, lines 38-127) *)

Record error : Type := { name : js_string; message : js_string }.

(** [new Error(msg)] *)
Definition Error (msg : js_string) : error :=
  {| name := js "Error"; message := msg |}.

(** The [TypeError] of the engine (V8 wording). *)
Definition TypeError (msg : js_string) : error :=
  {| name := js "TypeError"; message := msg |}.

Inductive method : Type := OPTIONS | POST | OtherMethod.

(** [req.body]: absent, or an object whose [url] is absent or a string. *)
Inductive body : Type :=
| NoBody
| Body (url : option js_string).

Record request : Type := { req_method : method; req_body : body }.

(** What [fetch(url, ...)] and then [response.text()] do. *)
Inductive fetched : Type :=
| Rejected (e : error)
| Responded (status : N) (content : error + js_string).

(** What [fetch(blob.url + '?t=...')] does: it rejects, or it responds with
    [ok] false or true; a response with [ok] true carries the stored body. *)
Inductive blob_fetch : Type :=
| BlobRejected
| BlobResponded (ok : bool).

(** Everything outside the handler that one request depends on. *)
Record world : Type := {
  env_token : option js_string;  (* process.env.BLOB_READ_WRITE_TOKEN *)
  page : fetched;                (* the fetch of the target page *)
  list_resolves : bool;          (* list({ token, limit: 100 }) resolves *)
  blob_response : blob_fetch;    (* the fetch of the queue document *)
  random_id : js_string;         (* Math.random().toString(36).substring(2, 10) *)
  today : js_string;             (* new Date().toISOString().split('T')[0] *)
  hostname : js_string;          (* new URL(url).hostname *)
  put_rejects : option error;    (* put(...) rejects with this error *)
  put_rank : nat                 (* where the store lists a blob it creates *)
}.

Inductive store_op : Type := OpList | OpGet | OpPut.

(** The value of [pendingList] after the read. *)
Inductive pending : Type :=
| Iterable (items : list Item.t)
| NotIterable.

Inductive payload : Type :=
| NoPayload
| ErrorPayload (error : js_string)
| SuccessPayload (item : Item.t).

Record response : Type := { status : N; payload_of : payload }.

(** [response.ok] *)
Definition ok_status (n : N) : bool := (200 <=? n) && (n <=? 299).

(** A falsy string: [undefined] or the empty string. *)
Definition falsy (s : option js_string) : bool :=
  match s with
  | None => true
  | Some [] => true
  | Some (_ :: _) => false
  end.

(** Lines 76-89: the read of the queue.  Every failure is caught and leaves
    [pendingList] at [[]]. *)
Definition read_pending (w : world) (st : store) : pending * list store_op :=
  if list_resolves w then
    match find_pending (firstn 100 st) with
    | Some b =>
        match blob_response w with
        | BlobRejected => (Iterable [], [OpList; OpGet])
        | BlobResponded false => (Iterable [], [OpList; OpGet])
        | BlobResponded true =>
            match content b with
            | JsonArray items => (Iterable items, [OpList; OpGet])
            | JsonOther => (NotIterable, [OpList; OpGet])
            | Malformed => (Iterable [], [OpList; OpGet])
            end
        end
    | None => (Iterable [], [OpList])
    end
  else (Iterable [], [OpList]).

(** Lines 92-99. *)
Definition new_item (url : js_string) (w : world) (x : extracted) : Item.t :=
  {| Item.id := random_id w;
     Item.url := url;
     Item.title := title x;
     Item.text := text x;
     Item.scrapedAt := today w;
     Item.source := hostname w |}.

Definition no_content : js_string :=
  js "未能提取到有效内容 (可能内容过短或为纯动态渲染)".

Definition upstream_status (n : N) : js_string :=
  js "抓取失败: 目标网站返回 " ++ decimal n.

(** Lines 59-102: fetch, extract, read the queue, build the new list.  The
    store is read and not changed. *)
Definition prepare (url : js_string) (w : world) (st : store)
  : (error + Item.t * list Item.t) * list store_op :=
  match page w with
  | Rejected e => (inl e, [])
  | Responded n content =>
      if negb (ok_status n) then (inl (Error (upstream_status n)), [])
      else
        match content with
        | inl e => (inl e, [])
        | inr html =>
            let x := extractContent html in
            if (List.length (text x) <? 50)%nat
            then (inl (Error no_content), [])
            else
              let (pendingList, ops) := read_pending w st in
              let newItem := new_item url w x in
              match pendingList with
              | Iterable items => (inr (newItem, newItem :: items), ops)
              | NotIterable =>
                  (inl (TypeError (js "pendingList is not iterable")), ops)
              end
        end
  end.

(** Lines 105-111: the full overwrite of the document. *)
Definition commit (pendingList : list Item.t) (w : world) (st : store)
  : (error + unit) * store :=
  match put_rejects w with
  | Some e => (inl e, st)
  | None => (inr tt, put (JsonArray pendingList) (put_rank w) st)
  end.

(** Lines 115-121: the inner [catch] renames a timeout and rethrows. *)
Definition rethrow (e : error) : error :=
  if js_eqb (name e) (js "AbortError")
  then Error (js "抓取超时 (15s): 目标网站响应过慢")
  else e.

(** Lines 58-121. *)
Definition attempt (url : js_string) (w : world) (st : store)
  : (error + Item.t) * store * list store_op :=
  match prepare url w st with
  | (inl e, ops) => (inl (rethrow e), st, ops)
  | (inr (newItem, pendingList), ops) =>
      match commit pendingList w st with
      | (inl e, st') => (inl (rethrow e), st', ops ++ [OpPut])
      | (inr _, st') => (inr newItem, st', ops ++ [OpPut])
      end
  end.

Definition reply (n : N) (p : payload) : response :=
  {| status := n; payload_of := p |}.

Definition handler (req : request) (w : world) (st : store)
  : response * store * list store_op :=
  match req_method req with
  | OPTIONS => (reply 200 NoPayload, st, [])
  | m =>
      if falsy (env_token w)
      then (reply 503 (ErrorPayload (js "服务器配置错误: 未配置 Blob Token")), st, [])
      else
        match m with
        | POST =>
            match req_body req with
            | NoBody =>
                (reply 500
                   (ErrorPayload
                      (js "Cannot destructure property 'url' of 'req.body' as it is undefined.")),
                 st, [])
            | Body u =>
                match u with
                | Some (c :: url') =>
                    match attempt (c :: url') w st with
                    | (inl e, st', ops) =>
                        (reply 500 (ErrorPayload (message e)), st', ops)
                    | (inr newItem, st', ops) =>
                        (reply 200 (SuccessPayload newItem), st', ops)
                    end
                | _ => (reply 400 (ErrorPayload (js "URL 不能为空")), st, [])
                end
            end
        | _ => (reply 405 NoPayload, st, [])
        end
  end.

(** Two requests that both read the store before either writes: the
    interleaving [read 1; read 2; write 1; write 2] of two runs of lines
    59-111. *)
Definition read_read_write_write (url1 : js_string) (w1 : world)
    (url2 : js_string) (w2 : world) (st : store)
  : option (Item.t * Item.t * store) :=
  match prepare url1 w1 st, prepare url2 w2 st with
  | (inr (item1, list1), _), (inr (item2, list2), _) =>
      match commit list1 w1 st with
      | (inr _, st1) =>
          match commit list2 w2 st1 with
          | (inr _, st2) => Some (item1, item2, st2)
          | _ => None
          end
      | _ => None
      end
  | _, _ => None
  end.

(** ** Record creation (components/EntryForm.tsx, lines 117-180) *)

(** [encodeURIComponent]: the string is read as code points (a lone
    surrogate throws [URIError]), each code point outside the unreserved set
    is written as the percent-escaped bytes of its UTF-8 encoding. *)
Definition is_high (c : N) : bool := (55296 <=? c) && (c <=? 56319).
Definition is_low (c : N) : bool := (56320 <=? c) && (c <=? 57343).

Fixpoint code_points (s : js_string) : option (list N) :=
  match s with
  | [] => Some []
  | c :: r =>
      if is_high c then
        match r with
        | d :: r' =>
            if is_low d then
              option_map (cons (65536 + (c - 55296) * 1024 + (d - 56320)))
                (code_points r')
            else None
        | [] => None
        end
      else if is_low c then None
      else option_map (cons c) (code_points r)
  end.

Definition utf8_encode (cp : N) : list N :=
  if cp <? 128 then [cp]
  else if cp <? 2048 then [192 + cp / 64; 128 + cp mod 64]
  else if cp <? 65536
       then [224 + cp / 4096; 128 + (cp / 64) mod 64; 128 + cp mod 64]
       else [240 + cp / 262144; 128 + (cp / 4096) mod 64;
             128 + (cp / 64) mod 64; 128 + cp mod 64].

Definition hex_digit (n : N) : N := if n <? 10 then 48 + n else 55 + n.

Definition percent (b : N) : js_string :=
  [37; hex_digit (b / 16); hex_digit (b mod 16)].

Definition unreserved (c : N) : bool :=
  ((65 <=? c) && (c <=? 90)) || ((97 <=? c) && (c <=? 122))
  || ((48 <=? c) && (c <=? 57))
  || existsb (N.eqb c) (js "-_.!~*'()").

Definition encode_point (cp : N) : js_string :=
  if unreserved cp then [cp] else flat_map percent (utf8_encode cp).

Definition encodeURIComponent (s : js_string) : option js_string :=
  option_map (flat_map encode_point) (code_points s).

(** [s.includes(sub)] *)
Fixpoint starts_with (sub s : js_string) : bool :=
  match sub, s with
  | [], _ => true
  | a :: sub', b :: s' => (a =? b) && starts_with sub' s'
  | _ :: _, [] => false
  end.

Fixpoint includes (s sub : js_string) : bool :=
  starts_with sub s
  || match s with
     | [] => false
     | _ :: s' => includes s' sub
     end.

Module News.
(** [Omit<NewsItem, 'id'>], what [onAdd] receives. *)
Record t : Type := {
  title : js_string;
  summary : js_string;
  brand : js_string;
  type : js_string;
  date : js_string;
  url : js_string;
  source : js_string;
  image : js_string
}.
End News.

Module Analysis.
(** What [analyzeTextWithQwen] resolves to.  The value comes from a model
    and nothing has checked it: [type] is whatever string was returned,
    [url] and [image_keywords] may be missing. *)
Record t : Type := {
  title : js_string;
  summary : js_string;
  brand : js_string;
  type : js_string;
  date : js_string;
  url : option js_string;
  image_keywords : option js_string
}.
End Analysis.

(** Modelled from the spec: the values of the enumeration [NewsType], which
    is declared in [types.ts] (not among the sources): launch, policy,
    sales, personnel, competitor, other. *)
Definition NewsType_values : list js_string :=
  [js "launch"; js "policy"; js "sales"; js "personnel"; js "competitor";
   js "other"].

Definition is_NewsType (s : js_string) : bool :=
  existsb (js_eqb s) NewsType_values.

(** Line 117-119; [seed] is [Math.floor(Math.random()*1000)]. *)
Definition generateImageUrl (seed : N) (prompt : js_string)
  : option js_string :=
  option_map
    (fun enc =>
       js "https://image.pollinations.ai/prompt/" ++ enc
       ++ js "?width=800&height=600&nologo=true&seed=" ++ decimal seed)
    (encodeURIComponent prompt).

(** [a || b] on strings, [b] being computed only when [a] is empty. *)
Definition or_else (a : js_string) (b : option js_string)
  : option js_string :=
  match a with
  | [] => b
  | _ :: _ => Some a
  end.

(** Lines 121-134.  The result is the argument of [onAdd]; [None] when the
    handler throws before it calls [onAdd]. *)
Definition handleManualSubmit (seed : N) (formData : News.t)
  : option News.t :=
  option_map
    (fun finalImage =>
       {| News.title := News.title formData;
          News.summary := News.summary formData;
          News.brand := News.brand formData;
          News.type := News.type formData;
          News.date := News.date formData;
          News.url := News.url formData;
          News.source := News.source formData;
          News.image := finalImage |})
    (or_else (trim (News.image formData))
       (generateImageUrl seed
          (News.brand formData ++ [SP] ++ News.title formData
           ++ js " automotive"))).

(** Lines 167-176: the message shown for a caught error. *)
Definition classify (e : error) : js_string :=
  let msg := match message e with [] => js "未知错误" | m => m end in
  if includes msg (js "API Key") || includes msg (js "401")
     || includes msg (js "403")
  then js "API Key 错误。请检查 VITE_DASHSCOPE_API_KEY 配置。"
  else if includes msg (js "JSON")
  then js "AI 返回格式解析失败，请重试。"
  else js "分析失败: " ++ msg.

Inductive ai_outcome : Type :=
| Idle                          (* line 137: nothing to analyse *)
| Added (item : News.t)         (* onAdd was called *)
| Failed (shown : js_string).   (* setError was called *)

(** Lines 136-180.  [analysis] is what [analyzeTextWithQwen] does: it
    rejects with an error or resolves to a result. *)
Definition handleAiAnalyze (seed : N) (aiText aiImageInput : js_string)
    (analysis : error + Analysis.t) : ai_outcome :=
  match trim aiText with
  | [] => Idle
  | _ :: _ =>
      match analysis with
      | inl e => Failed (classify e)
      | inr result =>
          let prompt :=
            match Analysis.image_keywords result with
            | Some (c :: k) => c :: k
            | _ => Analysis.brand result ++ js " car news"
            end in
          match or_else (trim aiImageInput) (generateImageUrl seed prompt) with
          | None =>
              Failed (classify {| name := js "URIError";
                                  message := js "URI malformed" |})
          | Some finalImage =>
              Added
                {| News.title := Analysis.title result;
                   News.summary := Analysis.summary result;
                   News.brand := Analysis.brand result;
                   News.type := Analysis.type result;
                   News.date := Analysis.date result;
                   News.url :=
                     (if falsy (Analysis.url result) then aiImageInput
                      else match Analysis.url result with
                           | Some u => u
                           | None => aiImageInput
                           end);
                   News.source := js "AI 智能提取 (Qwen)";
                   News.image := finalImage |}
          end
      end
  end.


(** What a request answers and the store it leaves. *)
Definition answer (req : request) (w : world) (st : store) : response :=
  fst (fst (handler req w st)).

Definition after (req : request) (w : world) (st : store) : store :=
  snd (fst (handler req w st)).

Definition store_ops (req : request) (w : world) (st : store)
  : list store_op :=
  snd (handler req w st).

(** The read of request [w] reaches the document of [st]: the listing
    resolves with the document among its first 100 entries and the fetch of
    the document responds with [ok]. *)
Definition reads_document (w : world) (st : store) : Prop :=
  list_resolves w = true /\ blob_response w = BlobResponded true
  /\ find_pending (firstn 100 st) <> None.

Definition ids (q : list Item.t) : list js_string := map Item.id q.

(** ** The inbox of the entry form (components/EntryForm.tsx, lines 20-91) *)

Inductive tab : Type := SpiderTab | AiTab | ManualTab.

Module Form.
(** The part of the component state that the inbox and the AI tab use. *)
Record t : Type := {
  activeTab : tab;
  isProcessing : bool;
  error : option js_string;
  spiderUrl : js_string;
  isSpidering : bool;
  pendingItems : list Item.t;
  aiText : js_string;
  aiImageInput : js_string
}.
End Form.

(** Lines 37-47; [refresh] is what [GET /api/pending] delivers: the array
    of a response that is [ok], or nothing (the list is then left as it
    is). *)
Definition fetchPendingItems (refresh : option (list Item.t)) (st : Form.t)
  : Form.t :=
  match refresh with
  | Some data =>
      {| Form.activeTab := Form.activeTab st;
         Form.isProcessing := Form.isProcessing st;
         Form.error := Form.error st;
         Form.spiderUrl := Form.spiderUrl st;
         Form.isSpidering := Form.isSpidering st;
         Form.pendingItems := data;
         Form.aiText := Form.aiText st;
         Form.aiImageInput := Form.aiImageInput st |}
  | None => st
  end.

(** The request of line 54-58. *)
Definition spider_request (st : Form.t) : request :=
  {| req_method := POST; req_body := Body (Some (Form.spiderUrl st)) |}.

Definition with_error (m : js_string) (st : Form.t) : Form.t :=
  {| Form.activeTab := Form.activeTab st;
     Form.isProcessing := Form.isProcessing st;
     Form.error := Some m;
     Form.spiderUrl := Form.spiderUrl st;
     Form.isSpidering := false;
     Form.pendingItems := Form.pendingItems st;
     Form.aiText := Form.aiText st;
     Form.aiImageInput := Form.aiImageInput st |}.

(** [data.error] of the parsed body of a response; [None] when [res.json()]
    rejects (a response ended without a body). *)
Definition json_error (p : payload) : option (option js_string) :=
  match p with
  | NoPayload => None
  | ErrorPayload e => Some (Some e)
  | SuccessPayload _ => Some None
  end.

(** Lines 49-69.  [server] is what [fetch('/api/spider', ...)] does: it
    rejects, or it resolves to a response. *)
Definition handleSpiderSubmit (server : error + response)
    (refresh : option (list Item.t)) (st : Form.t) : Form.t :=
  match Form.spiderUrl st with
  | [] => st
  | _ :: _ =>
      match server with
      | inl e => with_error (message e) st
      | inr res =>
          match json_error (payload_of res) with
          | None => with_error (js "Unexpected end of JSON input") st
          | Some err =>
              if negb (ok_status (status res)) then
                with_error
                  (if falsy err then js "抓取失败"
                   else match err with Some m => m | None => [] end)
                  st
              else
                fetchPendingItems refresh
                  {| Form.activeTab := Form.activeTab st;
                     Form.isProcessing := Form.isProcessing st;
                     Form.error := None;
                     Form.spiderUrl := [];
                     Form.isSpidering := false;
                     Form.pendingItems := Form.pendingItems st;
                     Form.aiText := Form.aiText st;
                     Form.aiImageInput := Form.aiImageInput st |}
          end
      end
  end.

(** Lines 71-79: the list is filtered at once; the [DELETE] request that
    follows is not awaited for the view and its failure is only logged. *)
Definition handleDeletePending (id : js_string) (st : Form.t) : Form.t :=
  {| Form.activeTab := Form.activeTab st;
     Form.isProcessing := Form.isProcessing st;
     Form.error := Form.error st;
     Form.spiderUrl := Form.spiderUrl st;
     Form.isSpidering := Form.isSpidering st;
     Form.pendingItems :=
       filter (fun i => negb (js_eqb (Item.id i) id)) (Form.pendingItems st);
     Form.aiText := Form.aiText st;
     Form.aiImageInput := Form.aiImageInput st |}.

(** Lines 81-91. *)
Definition handleProcessPending (item : Item.t) (st : Form.t) : Form.t :=
  {| Form.activeTab := AiTab;
     Form.isProcessing := Form.isProcessing st;
     Form.error := Form.error st;
     Form.spiderUrl := Form.spiderUrl st;
     Form.isSpidering := Form.isSpidering st;
     Form.pendingItems := Form.pendingItems st;
     Form.aiText := Item.text item;
     Form.aiImageInput := Item.url item |}.

(** Lines 136-180 on the component state: the state after the handler and
    the record handed to [onAdd], if any. *)
Definition analyze (seed : N) (analysis : error + Analysis.t) (st : Form.t)
  : Form.t * option News.t :=
  match handleAiAnalyze seed (Form.aiText st) (Form.aiImageInput st)
          analysis with
  | Idle => (st, None)
  | Added item =>
      ({| Form.activeTab := Form.activeTab st;
          Form.isProcessing := false;
          Form.error := None;
          Form.spiderUrl := Form.spiderUrl st;
          Form.isSpidering := Form.isSpidering st;
          Form.pendingItems := Form.pendingItems st;
          Form.aiText := [];
          Form.aiImageInput := [] |}, Some item)
  | Failed shown =>
      ({| Form.activeTab := Form.activeTab st;
          Form.isProcessing := false;
          Form.error := Some shown;
          Form.spiderUrl := Form.spiderUrl st;
          Form.isSpidering := Form.isSpidering st;
          Form.pendingItems := Form.pendingItems st;
          Form.aiText := Form.aiText st;
          Form.aiImageInput := Form.aiImageInput st |}, None)
  end.

(** ** Runs of several requests *)

(** Requests handled one after the other on the same store. *)
Fixpoint ingest_all (rs : list (request * world)) (st : store) : store :=
  match rs with
  | [] => st
  | (req, w) :: rest => ingest_all rest (after req w st)
  end.

Fixpoint answers (rs : list (request * world)) (st : store)
  : list response :=
  match rs with
  | [] => []
  | (req, w) :: rest => answer req w st :: answers rest (after req w st)
  end.

(** The read of every request of the run reaches the document. *)
Fixpoint all_reach (rs : list (request * world)) (st : store) : Prop :=
  match rs with
  | [] => True
  | (req, w) :: rest =>
      reads_document w st /\ all_reach rest (after req w st)
  end.

(** A string whose elements are code units. *)
Definition well_formed (s : js_string) : Prop :=
  Forall (fun c => c < 65536) s.

(** The characters [encodeURIComponent] can produce. *)
Definition uri_safe (c : N) : bool := unreserved c || (c =? 37).

Definition empty_form : Form.t :=
  {| Form.activeTab := SpiderTab;
     Form.isProcessing := false;
     Form.error := None;
     Form.spiderUrl := [];
     Form.isSpidering := false;
     Form.pendingItems := [];
     Form.aiText := [];
     Form.aiImageInput := [] |}.

(** ** The sentiment bars of the dashboard (the component [Dashboard],
    [sentimentData]) *)

Module Shown.
(** A [NewsItem] as the dashboard receives it; [sentiment] and [tags] are
    optional. *)
Record t : Type := {
  id : js_string;
  date : js_string;
  title : js_string;
  summary : js_string;
  type : js_string;
  brand : js_string;
  source : js_string;
  image : js_string;
  url : js_string;
  sentiment : option js_string;
  tags : option (list js_string)
}.
End Shown.

Record bars : Type := {
  bar_name : js_string;
  positive : nat;
  neutral : nat;
  negative : nat
}.

(** [n.sentiment === v] *)
Definition sentiment_is (v : string) (n : Shown.t) : bool :=
  match Shown.sentiment n with
  | Some s => js_eqb s (js v)
  | None => false
  end.

(** [calc] of [sentimentData]. *)
Definition calc (data : list Shown.t) (name : js_string) : bars :=
  {| bar_name := name;
     positive := List.length (filter (sentiment_is "positive") data);
     neutral :=
       List.length
         (filter (fun n => falsy (Shown.sentiment n)
                           || sentiment_is "neutral" n) data);
     negative := List.length (filter (sentiment_is "negative") data) |}.

(** The values the type of [sentiment] allows, and a missing one. *)
Definition sentiment_known (n : Shown.t) : bool :=
  falsy (Shown.sentiment n) || sentiment_is "positive" n
  || sentiment_is "neutral" n || sentiment_is "negative" n.

Definition shown (s : option string) : Shown.t :=
  {| Shown.id := js "k3j2h1g0"; Shown.date := js "2025-01-13";
     Shown.title := js "BYD opens a showroom"; Shown.summary := [];
     Shown.type := js "sales"; Shown.brand := js "BYD";
     Shown.source := js "AutoMiddleEast"; Shown.image := [];
     Shown.url := js "#"; Shown.sentiment := option_map js s;
     Shown.tags := None |}.

(** ** Sample data for the concrete runs below *)

Definition sample_html : js_string :=
  js "<html><head><title>BYD opens a showroom</title></head><body><p>BYD opened its largest showroom of the region on Sheikh Zayed Road this week.</p></body></html>".

Definition sample_world (rid : string) (r : blob_fetch) : world :=
  {| env_token := Some (js "vercel_blob_rw_token");
     page := Responded 200 (inr sample_html);
     list_resolves := true;
     blob_response := r;
     random_id := js rid;
     today := js "2025-01-13";
     hostname := js "example.com";
     put_rejects := None;
     put_rank := 0 |}.

Definition post (u : string) : request :=
  {| req_method := POST; req_body := Body (Some (js u)) |}.

Definition sample_item (rid u : string) : Item.t :=
  new_item (js u) (sample_world rid (BlobResponded true))
    (extractContent sample_html).

Definition other_blob (n : nat) : blob :=
  {| pathname := js "images/" ++ decimal (N.of_nat n) ++ js ".png";
     content := Malformed |}.

(** A store whose listing shows a hundred other blobs before the queue
    document. *)
Definition crowded_store (q : list Item.t) : store :=
  map other_blob (seq 0 100)
  ++ [{| pathname := pending_json; content := JsonArray q |}].


Definition with_page (p : fetched) (w : world) : world :=
  {| env_token := env_token w; page := p;
     list_resolves := list_resolves w; blob_response := blob_response w;
     random_id := random_id w; today := today w; hostname := hostname w;
     put_rejects := put_rejects w; put_rank := put_rank w |}.

Definition with_put (e : error) (w : world) : world :=
  {| env_token := env_token w; page := page w;
     list_resolves := list_resolves w; blob_response := blob_response w;
     random_id := random_id w; today := today w; hostname := hostname w;
     put_rejects := Some e; put_rank := put_rank w |}.

Definition timeout_message : js_string :=
  js "抓取超时 (15s): 目标网站响应过慢".

Definition queue_blob (d : document) : blob :=
  {| pathname := pending_json; content := d |}.

(** ** Auxiliary notions for the statements on [extractContent] *)

(** [strip_ci pat s]: [s] without its prefix when that prefix equals [pat]
    up to the case of ASCII letters. *)
Fixpoint strip_ci (pat s : js_string) : option js_string :=
  match pat, s with
  | [], _ => Some s
  | c :: pat', x :: s' => if ci_chr c x then strip_ci pat' s' else None
  | _ :: _, [] => None
  end.

(** [s] equals [pat] up to the case of ASCII letters. *)
Definition ci_eqb (pat s : js_string) : bool :=
  match strip_ci pat s with
  | Some [] => true
  | _ => false
  end.

(** [pat] occurs somewhere in [s], up to case. *)
Fixpoint occurs_ci (pat s : js_string) : bool :=
  match strip_ci pat s with
  | Some _ => true
  | None =>
      match s with
      | [] => false
      | _ :: s' => occurs_ci pat s'
      end
  end.

(** No character of [pat] matches [<]. *)
Definition no_lt (pat : js_string) : bool :=
  forallb (fun c => negb (ci_chr c LT)) pat.

(** A tag name made of lower-case ASCII letters. *)
Definition tag_name (tag : js_string) : bool :=
  forallb (fun c => (97 <=? c) && (c <=? 122)) tag.

Definition open_tag (tag : js_string) : js_string := LT :: tag ++ [GT].
Definition close_tag (tag : js_string) : js_string := js "</" ++ tag ++ [GT].

(** The continuations of [block_re] after its opening literal. *)
Definition K0 : Regex.cont := fun s caps => Some (caps, s).

Definition find_close (tag : js_string) : Regex.cont :=
  Regex.star_lazy any_chr (Regex.run (lit_ci (close_tag tag)) K0).

Definition after_gt (tag : js_string) : Regex.cont :=
  Regex.run (Chr (is_chr GT)) (find_close tag).

Definition after_open (tag : js_string) : Regex.cont :=
  Regex.star_greedy (not_chr GT) (after_gt tag).

(** [z ++ post] is closed at [post] for the pattern of [tag]: it starts
    with [<], and the pattern, whether it starts at [z], is inside its
    opening tag or is looking for its closing tag when it reaches [z], ends
    its match exactly where [post] starts. *)
Definition closed_at (tag z post : js_string) : Prop :=
  (exists z', z = LT :: z')
  /\ Regex.exec (block_re tag) (z ++ post) = Some ([], post)
  /\ after_open tag (z ++ post) [] = Some ([], post)
  /\ find_close tag (z ++ post) [] = Some ([], post).

(** Two match results on [v ++ z1 ++ post] and [v ++ z2 ++ post] that do
    not depend on what [z1] and [z2] are: no match, a match that ends
    inside [v], or a match that ends where [post] starts. *)
Definition agree (v z1 z2 post : js_string)
    (o1 o2 : option Regex.result) : Prop :=
  (o1 = None /\ o2 = None)
  \/ (exists u r, v = u ++ r /\ u <> []
                  /\ o1 = Some ([], r ++ z1 ++ post)
                  /\ o2 = Some ([], r ++ z2 ++ post))
  \/ (o1 = Some ([], post) /\ o2 = Some ([], post)).

(** The continuation of [title_re] after its opening literal. *)
Definition title_tail : Regex.cont :=
  Regex.run
    (Star (not_chr GT) ;; Chr (is_chr GT) ;;
     Group (Chr (not_chr LT) ;; Star (not_chr LT)) ;;
     lit_ci (js "</title>"))%re K0.

(** The continuation of [blank_re] after its run of white space. *)
Definition blank_k : Regex.cont :=
  Regex.run (Chr (is_chr NL)) (fun s caps => Some (caps, s)).

(** [s] starts with a line end. *)
Definition starts_nl (s : js_string) : bool :=
  match s with
  | y :: _ => y =? NL
  | [] => false
  end.

(** * Properties *)

#[local] Arguments extractContent : simpl never.
#[local] Arguments js : simpl never.
#[local] Arguments decimal : simpl never.

(** ** Sample runs *)

Example untitled_units : untitled = [26080; 26631; 39064].
Proof. reflexivity. Qed.

Example extract_simple :
  extractContent
    (js "<html><head><TITLE> Hi there </TITLE><script>var x = 1;</script></head><body><p>Hello&nbsp;world</p>

<p>bye</p></body></html>")
  = {| title := js "Hi there"; text := js "Hi there 
Hello world
bye" |}.
Proof. vm_compute. reflexivity. Qed.

Example encode_sample :
  encodeURIComponent (js "BYD 汉 car&news")
  = Some (js "BYD%20%E6%B1%89%20car%26news").
Proof. vm_compute. reflexivity. Qed.

Example timeout_is_renamed :
  answer (post "https://example.com/slow")
    {| env_token := Some (js "vercel_blob_rw_token");
       page := Rejected {| name := js "AbortError";
                           message := js "This operation was aborted" |};
       list_resolves := true;
       blob_response := BlobResponded true;
       random_id := js "aaaa1111";
       today := js "2025-01-13";
       hostname := js "example.com";
       put_rejects := None;
       put_rank := 0 |} []
  = reply 500 (ErrorPayload (js "抓取超时 (15s): 目标网站响应过慢")).
Proof. vm_compute. reflexivity. Qed.

(** ** Strings *)

Lemma js_eqb_refl (a : js_string) : js_eqb a a = true.
Proof.
  induction a as [|x a IH]; simpl; [reflexivity|].
  now rewrite N.eqb_refl.
Qed.

Lemma js_eqb_eq (a b : js_string) : js_eqb a b = true <-> a = b.
Proof.
  split; [|intros ->; apply js_eqb_refl].
  revert b; induction a as [|x a IH]; intros [|y b]; simpl; try easy.
  intros H; apply andb_prop in H as [H1 H2].
  apply N.eqb_eq in H1; apply IH in H2; now subst.
Qed.

Lemma trim_start_spaces (s : js_string) :
  forallb is_space s = true -> trim_start s = [].
Proof.
  induction s as [|c s IH]; simpl; [reflexivity|].
  intros H; apply andb_prop in H as [Hc Hs]; rewrite Hc; auto.
Qed.

Lemma trim_start_nonempty (s : js_string) :
  forallb is_space s = false ->
  exists c r, trim_start s = c :: r /\ is_space c = false.
Proof.
  induction s as [|c s IH]; simpl; [discriminate|].
  destruct (is_space c) eqn:Hc; simpl; [exact IH|].
  intros _; now exists c, s.
Qed.

Lemma trim_spaces (s : js_string) :
  forallb is_space s = true -> trim s = [].
Proof.
  intros H; unfold trim; now rewrite (trim_start_spaces s H).
Qed.

Lemma trim_start_suffix (s : js_string) :
  exists p, s = p ++ trim_start s.
Proof.
  induction s as [|c s [p IH]]; simpl; [now exists []|].
  destruct (is_space c); [|now exists []].
  exists (c :: p); simpl; now f_equal.
Qed.

Lemma trim_nonempty (s : js_string) :
  forallb is_space s = false -> trim s <> [].
Proof.
  intros H; unfold trim.
  destruct (trim_start_nonempty s H) as (c & r & E & Hc); rewrite E.
  assert (Hr : forallb is_space (rev (c :: r)) = false).
  { destruct (forallb is_space (rev (c :: r))) eqn:F; [|reflexivity].
    rewrite forallb_forall in F.
    rewrite (F c) in Hc; [discriminate|].
    apply in_rev; rewrite rev_involutive; now left. }
  destruct (trim_start_nonempty _ Hr) as (d & t & E' & _); rewrite E'.
  intros Habs; apply (f_equal (@List.length N)) in Habs.
  rewrite length_rev in Habs; discriminate.
Qed.

(** ** The store *)

Lemma is_pending_own (d : document) :
  is_pending {| pathname := pending_json; content := d |} = true.
Proof. apply js_eqb_refl. Qed.

Lemma find_firstn {A} (f : A -> bool) (n : nat) (l : list A) (x : A) :
  find f (firstn n l) = Some x -> find f l = Some x.
Proof.
  revert n; induction l as [|a l IH]; intros [|n]; simpl; try discriminate.
  destruct (f a); [easy|apply IH].
Qed.

Lemma find_firstn_none {A} (f : A -> bool) (n : nat) (l : list A) :
  find f l = None -> find f (firstn n l) = None.
Proof.
  revert n; induction l as [|a l IH]; intros [|n]; simpl; try easy.
  destruct (f a); [easy|apply IH].
Qed.

Lemma find_app_none {A} (f : A -> bool) (l1 l2 : list A) :
  find f l1 = None -> find f (l1 ++ l2) = find f l2.
Proof.
  induction l1 as [|a l1 IH]; simpl; [easy|].
  destruct (f a); [discriminate|exact IH].
Qed.

Lemma stored_put (d : document) (rank : nat) (st : store) :
  stored (put d rank st) = Some d.
Proof.
  unfold stored, put, find_pending.
  destruct (find is_pending st) as [b|] eqn:F.
  - clear rank. revert F.
    induction st as [|a st IH]; cbn [map find]; [discriminate|].
    intros F.
    destruct (is_pending a) eqn:Ha.
    + now rewrite is_pending_own.
    + rewrite Ha. now apply IH.
  - rewrite find_app_none by now apply find_firstn_none.
    cbn [find]; now rewrite is_pending_own.
Qed.

(** The read yields the empty list or the array the store holds. *)
Lemma read_pending_cases (w : world) (st : store) (l : list Item.t) :
  fst (read_pending w st) = Iterable l ->
  l = [] \/ stored st = Some (JsonArray l).
Proof.
  unfold read_pending, stored.
  destruct (list_resolves w); [|simpl; intros [= <-]; now left].
  destruct (find_pending (firstn 100 st)) as [b|] eqn:F;
    [|simpl; intros [= <-]; now left].
  apply find_firstn in F; unfold find_pending at 1; rewrite F; simpl.
  destruct (blob_response w) as [|[|]]; try (simpl; intros [= <-]; now left).
  destruct (content b); simpl; intros [= <-]; auto; discriminate.
Qed.

Lemma read_pending_reaches (w : world) (st : store) (q : list Item.t) :
  reads_document w st -> stored st = Some (JsonArray q) ->
  fst (read_pending w st) = Iterable q.
Proof.
  intros (Hl & Hb & Hf) Hs. unfold read_pending; rewrite Hl, Hb.
  destruct (find_pending (firstn 100 st)) as [b|] eqn:F; [|contradiction].
  apply find_firstn in F. unfold stored, find_pending in Hs.
  rewrite F in Hs; simpl in Hs. injection Hs as ->. reflexivity.
Qed.

(** ** The handler *)

Lemma rethrow_Error (m : js_string) : rethrow (Error m) = Error m.
Proof. reflexivity. Qed.

(** A request answered with an item ran lines 59-111 to their end. *)
Lemma handler_success (req : request) (w : world) (st : store)
    (item : Item.t) :
  payload_of (answer req w st) = SuccessPayload item ->
  exists url l,
    fst (prepare url w st) = inr (item, item :: l)
    /\ fst (read_pending w st) = Iterable l
    /\ put_rejects w = None
    /\ after req w st = put (JsonArray (item :: l)) (put_rank w) st.
Proof.
  unfold answer, after, handler.
  destruct (req_method req); simpl; try discriminate;
    destruct (falsy (env_token w)); simpl; try discriminate.
  destruct (req_body req) as [|[[|c u]|]]; simpl; try discriminate.
  unfold attempt.
  destruct (prepare (c :: u) w st) as [[e|[newItem lst]] ops] eqn:P;
    simpl; try discriminate.
  unfold commit.
  destruct (put_rejects w) eqn:R; simpl; try discriminate.
  intros [= <-].
  exists (c :: u).
  revert P; unfold prepare.
  destruct (page w) as [e|n [e|html]]; try discriminate;
    destruct (negb (ok_status n)); try discriminate.
  destruct (List.length (text (extractContent html)) <? 50)%nat;
    try discriminate.
  destruct (read_pending w st) as [[items|] ops']; try discriminate.
  intros [= <- <- <-]. exists items; simpl; auto.
Qed.

Lemma handler_success_stored (req : request) (w : world) (st : store)
    (item : Item.t) :
  payload_of (answer req w st) = SuccessPayload item ->
  exists l,
    fst (read_pending w st) = Iterable l
    /\ stored (after req w st) = Some (JsonArray (item :: l)).
Proof.
  intros H; destruct (handler_success _ _ _ _ H) as (url & l & _ & R & _ & A).
  exists l; split; [exact R|]. rewrite A; apply stored_put.
Qed.

Lemma prepare_success (url : js_string) (w : world) (st : store)
    (item : Item.t) (lst : list Item.t) :
  fst (prepare url w st) = inr (item, lst) ->
  exists html l,
    fst (read_pending w st) = Iterable l /\ lst = item :: l
    /\ item = new_item url w (extractContent html).
Proof.
  unfold prepare.
  destruct (page w) as [e|n [e|html]]; try discriminate;
    destruct (negb (ok_status n)); try discriminate.
  destruct (List.length (text (extractContent html)) <? 50)%nat;
    try discriminate.
  destruct (read_pending w st) as [[items|] ops']; try discriminate.
  simpl; intros [= <- <-]. now exists html, items.
Qed.

(** What lines 59-102 compute once the page is fetched with enough text. *)
Lemma prepare_fetched (url : js_string) (w : world) (st : store) (n : N)
    (html : js_string) (l : list Item.t) :
  page w = Responded n (inr html) -> ok_status n = true ->
  (50 <= List.length (text (extractContent html)))%nat ->
  fst (read_pending w st) = Iterable l ->
  fst (prepare url w st)
  = inr (new_item url w (extractContent html),
         new_item url w (extractContent html) :: l).
Proof.
  intros Hp Hok Hlen Hr. unfold prepare; rewrite Hp, Hok; cbv zeta; cbn [negb].
  destruct (Nat.ltb_spec (List.length (text (extractContent html))) 50);
    [lia|].
  destruct (read_pending w st) as [pl ops]; simpl in Hr; subst pl.
  reflexivity.
Qed.

Lemma handler_fetched (url : js_string) (w : world) (st : store) (n : N)
    (html : js_string) (l : list Item.t) :
  falsy (env_token w) = false -> url <> [] -> put_rejects w = None ->
  page w = Responded n (inr html) -> ok_status n = true ->
  (50 <= List.length (text (extractContent html)))%nat ->
  fst (read_pending w st) = Iterable l ->
  let req := {| req_method := POST; req_body := Body (Some url) |} in
  let item := new_item url w (extractContent html) in
  answer req w st = reply 200 (SuccessPayload item)
  /\ stored (after req w st) = Some (JsonArray (item :: l)).
Proof.
  intros Ht Hu Hput Hp Hok Hlen Hr req item.
  pose proof (prepare_fetched url w st n html l Hp Hok Hlen Hr) as P.
  unfold answer, after, handler; cbn; rewrite Ht.
  destruct url as [|c u]; [contradiction|].
  unfold attempt.
  destruct (prepare (c :: u) w st) as [r ops]; simpl in P; subst r.
  unfold commit; rewrite Hput; cbn.
  split; [reflexivity|apply stored_put].
Qed.

(** C1, as stated, fails: nothing keeps the first writer's item apart from
    the second's.  Here both requests are for the same URL on the same day
    and draw the same token: the two items are equal, and the item of the
    first writer is in the stored document. *)
Lemma first_item_persists_on_equal_draw :
  let old := sample_item "0000zzzz" "https://example.com/0" in
  let i := sample_item "aaaa1111" "https://example.com/a" in
  let w := sample_world "aaaa1111" (BlobResponded true) in
  let st := [{| pathname := pending_json; content := JsonArray [old] |}] in
  fst (read_pending w st) = Iterable [old]
  /\ exists st2,
      read_read_write_write (js "https://example.com/a") w
        (js "https://example.com/a") w st = Some (i, i, st2)
      /\ stored st2 = Some (JsonArray [i; old])
      /\ In i [i; old].
Proof.
  intros old i w st. split; [vm_compute; reflexivity|].
  eexists. split; [vm_compute; reflexivity|].
  split; [vm_compute; reflexivity|now left].
Qed.

(** C1, amended: two ingestions that both read the queue state [L] and
    then both write leave the second writer's item prepended to [L] and
    nothing else; this is the document that a run of the second request
    alone leaves, so the write of the first is lost.  The item of the first
    writer is in the stored document only when it equals the item of the
    second or occurs in [L]. *)
Theorem last_overwrite_wins (url1 : js_string) (w1 : world)
    (url2 : js_string) (w2 : world) (st : store) (L : list Item.t)
    (item1 item2 : Item.t) (st2 : store) :
  fst (read_pending w1 st) = Iterable L ->
  fst (read_pending w2 st) = Iterable L ->
  read_read_write_write url1 w1 url2 w2 st = Some (item1, item2, st2) ->
  stored st2 = Some (JsonArray (item2 :: L))
  /\ stored st2 = stored (snd (fst (attempt url2 w2 st)))
  /\ (forall q, stored st2 = Some (JsonArray q) ->
                In item1 q -> item1 = item2 \/ In item1 L).
Proof.
  intros R1 R2 H. unfold read_read_write_write in H.
  destruct (prepare url1 w1 st) as [[e|[i1 l1]] ops1] eqn:P1; try discriminate.
  destruct (prepare url2 w2 st) as [[e|[i2 l2]] ops2] eqn:P2; try discriminate.
  unfold commit in H.
  destruct (put_rejects w1); try discriminate.
  destruct (put_rejects w2) eqn:Hput; try discriminate.
  injection H as <- <- <-.
  destruct (prepare_success url2 w2 st i2 l2) as (html & l & R & -> & _);
    [now rewrite P2|].
  rewrite R2 in R; injection R as <-.
  assert (S : stored (put (JsonArray (i2 :: L)) (put_rank w2)
                        (put (JsonArray l1) (put_rank w1) st))
              = Some (JsonArray (i2 :: L))) by apply stored_put.
  split; [exact S|]. split.
  - rewrite S. unfold attempt. rewrite P2. unfold commit. rewrite Hput.
    cbn [fst snd]. symmetry. apply stored_put.
  - intros q Hq Hin. rewrite S in Hq. injection Hq as <-.
    destruct Hin as [E|Hin]; [left; now symmetry|now right].
Qed.

Lemma last_overwrite_wins_witness :
  let old := sample_item "0000zzzz" "https://example.com/0" in
  let i1 := sample_item "aaaa1111" "https://example.com/a" in
  let i2 := sample_item "bbbb2222" "https://example.com/b" in
  let w2 := sample_world "bbbb2222" (BlobResponded true) in
  let st := [{| pathname := pending_json; content := JsonArray [old] |}] in
  let st2 := put (JsonArray [i2; old]) 0 (put (JsonArray [i1; old]) 0 st) in
  stored st2 = Some (JsonArray [i2; old])
  /\ stored st2
     = stored (snd (fst (attempt (js "https://example.com/b") w2 st)))
  /\ (forall q, stored st2 = Some (JsonArray q) ->
                In i1 q -> i1 = i2 \/ In i1 [old]).
Proof.
  intros old i1 i2 w2 st st2.
  apply (last_overwrite_wins (js "https://example.com/a")
           (sample_world "aaaa1111" (BlobResponded true))
           (js "https://example.com/b") w2 st [old] i1 i2).
  - vm_compute; reflexivity.
  - vm_compute; reflexivity.
  - vm_compute; reflexivity.
Defined.

(** C2, as stated, fails: the second ingestion succeeds although the fetch
    of the document answers with a status that is not [ok]; its read yields
    the empty list and the store ends with the second item alone. *)
Lemma sequential_ingestions_lost_item :
  let reqA := post "https://example.com/a" in
  let reqB := post "https://example.com/b" in
  let wA := sample_world "aaaa1111" (BlobResponded true) in
  let wB := sample_world "bbbb2222" (BlobResponded false) in
  let itemA := sample_item "aaaa1111" "https://example.com/a" in
  let itemB := sample_item "bbbb2222" "https://example.com/b" in
  stored [] = None
  /\ answer reqA wA [] = reply 200 (SuccessPayload itemA)
  /\ answer reqB wB (after reqA wA []) = reply 200 (SuccessPayload itemB)
  /\ stored (after reqB wB (after reqA wA [])) = Some (JsonArray [itemB])
  /\ stored (after reqB wB (after reqA wA []))
     <> Some (JsonArray [itemB; itemA]).
Proof.
  repeat split; try (vm_compute; reflexivity).
  vm_compute; discriminate.
Qed.

(** C2, amended: every successful ingestion leaves the store with its new
    item prepended to the list its read obtained; starting from an empty
    queue document, two successful ingestions A then B leave [B; A] when the
    read of B reaches the document. *)
Theorem sequential_ingestions_most_recent_first (reqA reqB : request)
    (wA wB : world) (st : store) (itemA itemB : Item.t) :
  payload_of (answer reqA wA st) = SuccessPayload itemA ->
  payload_of (answer reqB wB (after reqA wA st)) = SuccessPayload itemB ->
  (exists lA lB,
      fst (read_pending wA st) = Iterable lA
      /\ stored (after reqA wA st) = Some (JsonArray (itemA :: lA))
      /\ fst (read_pending wB (after reqA wA st)) = Iterable lB
      /\ stored (after reqB wB (after reqA wA st))
         = Some (JsonArray (itemB :: lB)))
  /\ ((stored st = None \/ stored st = Some (JsonArray [])) ->
      reads_document wB (after reqA wA st) ->
      stored (after reqB wB (after reqA wA st))
      = Some (JsonArray [itemB; itemA])).
Proof.
  intros HA HB.
  destruct (handler_success_stored _ _ _ _ HA) as (lA & RA & SA).
  destruct (handler_success_stored _ _ _ _ HB) as (lB & RB & SB).
  split; [now exists lA, lB|].
  intros Hempty Hreach.
  assert (lA = []) as ->.
  { destruct (read_pending_cases _ _ _ RA) as [E|E]; [exact E|].
    destruct Hempty as [Hn|Hn]; rewrite Hn in E; [discriminate|].
    now injection E. }
  rewrite (read_pending_reaches _ _ _ Hreach SA) in RB.
  injection RB as <-. exact SB.
Qed.

Lemma sequential_ingestions_most_recent_first_witness :
  let reqA := post "https://example.com/a" in
  let reqB := post "https://example.com/b" in
  let wA := sample_world "aaaa1111" (BlobResponded true) in
  let wB := sample_world "bbbb2222" (BlobResponded true) in
  let itemA := sample_item "aaaa1111" "https://example.com/a" in
  let itemB := sample_item "bbbb2222" "https://example.com/b" in
  stored (after reqB wB (after reqA wA [])) = Some (JsonArray [itemB; itemA]).
Proof.
  intros reqA reqB wA wB itemA itemB.
  apply (sequential_ingestions_most_recent_first reqA reqB wA wB []
           itemA itemB).
  - vm_compute; reflexivity.
  - vm_compute; reflexivity.
  - left; vm_compute; reflexivity.
  - repeat split; try (vm_compute; reflexivity).
    vm_compute; discriminate.
Defined.

(** C3: a fetched page whose extracted text has fewer than 50 code units is
    answered with status 500 and the message for unusable content; the store
    is left as it was and no store operation is issued. *)
Theorem short_text_rejected_without_queue_access (w : world) (st : store)
    (url : js_string) (n : N) (html : js_string) :
  falsy (env_token w) = false -> url <> [] ->
  page w = Responded n (inr html) -> ok_status n = true ->
  (List.length (text (extractContent html)) < 50)%nat ->
  handler {| req_method := POST; req_body := Body (Some url) |} w st
  = (reply 500 (ErrorPayload no_content), st, []).
Proof.
  intros Ht Hu Hp Hok Hlen.
  unfold handler; cbn; rewrite Ht.
  destruct url as [|c u]; [contradiction|].
  unfold attempt, prepare; rewrite Hp, Hok; cbv zeta; cbn [negb].
  destruct (Nat.ltb_spec (List.length (text (extractContent html))) 50);
    [|lia].
  now rewrite rethrow_Error.
Qed.

Lemma short_text_rejected_without_queue_access_witness :
  let w := {| env_token := Some (js "vercel_blob_rw_token");
              page := Responded 200
                        (inr (js "<html><body><div id='root'></div><script>render()</script></body></html>"));
              list_resolves := true;
              blob_response := BlobResponded true;
              random_id := js "aaaa1111";
              today := js "2025-01-13";
              hostname := js "example.com";
              put_rejects := None;
              put_rank := 0 |} in
  let st := crowded_store [sample_item "0000zzzz" "https://example.com/0"] in
  handler (post "https://example.com/spa") w st
  = (reply 500 (ErrorPayload no_content), st, []).
Proof.
  intros w st.
  apply (short_text_rejected_without_queue_access w st
           (js "https://example.com/spa") 200
           (js "<html><body><div id='root'></div><script>render()</script></body></html>")).
  - reflexivity.
  - vm_compute; discriminate.
  - reflexivity.
  - reflexivity.
  - vm_compute; lia.
Defined.

(** The cases in which the read fails open: when the document is not in
    the store, the listing rejects, the fetch of the document rejects or is
    not [ok], or [json()] rejects on the body, the read yields the empty
    list, and the request goes on to store the new item alone and to answer
    200. *)
Lemma read_fails_open (w : world) (st : store) :
  stored st = None \/ list_resolves w = false
  \/ blob_response w <> BlobResponded true \/ stored st = Some Malformed ->
  fst (read_pending w st) = Iterable []
  /\ forall (url : js_string) (n : N) (html : js_string),
      falsy (env_token w) = false -> url <> [] -> put_rejects w = None ->
      page w = Responded n (inr html) -> ok_status n = true ->
      (50 <= List.length (text (extractContent html)))%nat ->
      let req := {| req_method := POST; req_body := Body (Some url) |} in
      let item := new_item url w (extractContent html) in
      answer req w st = reply 200 (SuccessPayload item)
      /\ stored (after req w st) = Some (JsonArray [item]).
Proof.
  intros H.
  assert (R : fst (read_pending w st) = Iterable []).
  { unfold read_pending.
    destruct (list_resolves w) eqn:Hl; [|reflexivity].
    destruct (find_pending (firstn 100 st)) as [b|] eqn:F; [|reflexivity].
    pose proof (find_firstn _ _ _ _ F) as F'.
    destruct (blob_response w) as [|[|]] eqn:Hb; try reflexivity.
    destruct H as [H|[H|[H|H]]]; try discriminate; try contradiction;
      unfold stored, find_pending in H; rewrite F' in H; simpl in H;
      [discriminate|].
    injection H as ->; reflexivity. }
  split; [exact R|].
  intros url n html Ht Hu Hput Hp Hok Hlen.
  exact (handler_fetched url w st n html [] Ht Hu Hput Hp Hok Hlen R).
Qed.

Lemma read_fails_open_witness :
  let w := sample_world "aaaa1111" BlobRejected in
  let st := [{| pathname := pending_json;
                content := JsonArray [sample_item "0000zzzz" "https://example.com/0"] |}] in
  let item := sample_item "aaaa1111" "https://example.com/a" in
  fst (read_pending w st) = Iterable []
  /\ answer (post "https://example.com/a") w st = reply 200 (SuccessPayload item)
  /\ stored (after (post "https://example.com/a") w st) = Some (JsonArray [item]).
Proof.
  intros w st item.
  assert (H : stored st = None \/ list_resolves w = false
              \/ blob_response w <> BlobResponded true
              \/ stored st = Some Malformed)
    by (right; right; left; vm_compute; discriminate).
  destruct (read_fails_open w st H) as [R K].
  split; [exact R|].
  apply (K (js "https://example.com/a") 200 sample_html).
  - reflexivity.
  - vm_compute; discriminate.
  - reflexivity.
  - reflexivity.
  - reflexivity.
  - vm_compute; lia.
Defined.

(** C8, the case the code misses: the document holds a body that is JSON
    but not an array.  [json()] resolves, so the [catch] of lines 87-89 is
    not entered; the read yields the value as it is, the spread of line 102
    throws outside that [try], and the caller is answered with 500; the
    document stays as it is. *)
Theorem non_array_document_errors_caller :
  let w := sample_world "aaaa1111" (BlobResponded true) in
  let st := [{| pathname := pending_json; content := JsonOther |}] in
  let req := post "https://example.com/a" in
  fst (read_pending w st) = NotIterable
  /\ answer req w st
     = reply 500 (ErrorPayload (js "pendingList is not iterable"))
  /\ after req w st = st
  /\ store_ops req w st = [OpList; OpGet].
Proof.
  intros w st req.
  split; [vm_compute; reflexivity|].
  split; [vm_compute; reflexivity|].
  split; vm_compute; reflexivity.
Qed.

(** C9, as stated, fails: nothing compares the random token with the ids
    already queued.  Here the token drawn equals the id of the queued item,
    and the stored queue ends with the same id twice. *)
Lemma append_repeats_id :
  let old := sample_item "k3j2h1g0" "https://example.com/0" in
  let st := [{| pathname := pending_json; content := JsonArray [old] |}] in
  let w := sample_world "k3j2h1g0" (BlobResponded true) in
  let req := post "https://example.com/a" in
  NoDup (ids [old])
  /\ status (answer req w st) = 200
  /\ exists q, stored (after req w st) = Some (JsonArray q)
               /\ ~ NoDup (ids q).
Proof.
  intros old st w req. split; [|split].
  - repeat constructor; intros [].
  - reflexivity.
  - exists [sample_item "k3j2h1g0" "https://example.com/a"; old].
    split; [vm_compute; reflexivity|].
    intros H; inversion H as [|x l Hn _]; subst. apply Hn; now left.
Qed.

(** C9, amended: a successful append leaves pairwise distinct ids when the
    ids of the stored queue were pairwise distinct and the random token
    drawn for the new item is not among them. *)
Theorem append_keeps_ids_distinct (req : request) (w : world) (st : store)
    (item : Item.t) :
  payload_of (answer req w st) = SuccessPayload item ->
  (forall q, stored st = Some (JsonArray q) ->
             NoDup (ids q) /\ ~ In (random_id w) (ids q)) ->
  exists q', stored (after req w st) = Some (JsonArray q')
             /\ NoDup (ids q').
Proof.
  intros H Hq.
  destruct (handler_success _ _ _ _ H) as (url & l & P & R & _ & A).
  exists (item :: l); split; [rewrite A; apply stored_put|].
  destruct (prepare_success _ _ _ _ _ P) as (html & l' & _ & _ & ->).
  simpl. destruct (read_pending_cases _ _ _ R) as [->|S].
  - repeat constructor; intros [].
  - destruct (Hq l S) as [Hnd Hfresh]. now constructor.
Qed.

Lemma append_keeps_ids_distinct_witness :
  let old := sample_item "k3j2h1g0" "https://example.com/0" in
  let st := [{| pathname := pending_json; content := JsonArray [old] |}] in
  let w := sample_world "aaaa1111" (BlobResponded true) in
  let req := post "https://example.com/a" in
  exists q', stored (after req w st) = Some (JsonArray q') /\ NoDup (ids q').
Proof.
  intros old st w req.
  apply (append_keeps_ids_distinct req w st
           (sample_item "aaaa1111" "https://example.com/a")).
  - vm_compute; reflexivity.
  - intros q E. vm_compute in E. injection E as <-. split.
    + repeat constructor; intros [].
    + vm_compute; intros [F|[]]; discriminate F.
Defined.

(** C10: the read looks for the document among the first 100 blobs of the
    listing only; when the store holds the document further down, the read
    yields the empty list and a successful append overwrites the document
    with the new item alone. *)
Theorem document_beyond_first_100_is_overwritten (req : request) (w : world)
    (st : store) (d : document) (item : Item.t) :
  stored st = Some d ->
  find_pending (firstn 100 st) = None ->
  payload_of (answer req w st) = SuccessPayload item ->
  fst (read_pending w st) = Iterable []
  /\ stored (after req w st) = Some (JsonArray [item]).
Proof.
  intros _ F H.
  assert (R : fst (read_pending w st) = Iterable []).
  { unfold read_pending; rewrite F. now destruct (list_resolves w). }
  split; [exact R|].
  destruct (handler_success_stored _ _ _ _ H) as (l & R' & S).
  rewrite R in R'; injection R' as <-. exact S.
Qed.

Lemma document_beyond_first_100_is_overwritten_witness :
  let q := [sample_item "0000zzzz" "https://example.com/0";
            sample_item "1111yyyy" "https://example.com/1"] in
  let w := sample_world "aaaa1111" (BlobResponded true) in
  let req := post "https://example.com/a" in
  stored (crowded_store q) = Some (JsonArray q)
  /\ fst (read_pending w (crowded_store q)) = Iterable []
  /\ stored (after req w (crowded_store q))
     = Some (JsonArray [sample_item "aaaa1111" "https://example.com/a"]).
Proof.
  intros q w req.
  split; [vm_compute; reflexivity|].
  apply (document_beyond_first_100_is_overwritten req w (crowded_store q)
           (JsonArray q)).
  - vm_compute; reflexivity.
  - vm_compute; reflexivity.
  - vm_compute; reflexivity.
Defined.

(** ** Record creation *)

(** C4, as stated, fails: [handleAiAnalyze] hands the type of the result to
    [onAdd] as it came; a type outside the enumeration is stored
    unchanged. *)
Lemma unknown_type_is_kept :
  let result := {| Analysis.title := js "BYD opens a showroom";
                   Analysis.summary := js "A new showroom in Dubai.";
                   Analysis.brand := js "BYD";
                   Analysis.type := js "rumor";
                   Analysis.date := js "2025-01-13";
                   Analysis.url := None;
                   Analysis.image_keywords := Some (js "BYD showroom") |} in
  is_NewsType (js "rumor") = false
  /\ exists item,
      handleAiAnalyze 7 (js "BYD opened a showroom.") [] (inr result)
      = Added item
      /\ News.type item = js "rumor"
      /\ News.type item <> js "other".
Proof.
  intros result. split; [reflexivity|].
  eexists; split; [vm_compute; reflexivity|].
  split; [reflexivity|vm_compute; discriminate].
Qed.

(** C4, amended: the record handed to [onAdd] carries the type of the
    Analyzer result unchanged, whether or not it belongs to the
    enumeration. *)
Theorem analysis_type_is_passed_through (seed : N)
    (aiText aiImageInput : js_string) (result : Analysis.t)
    (item : News.t) :
  handleAiAnalyze seed aiText aiImageInput (inr result) = Added item ->
  News.type item = Analysis.type result.
Proof.
  unfold handleAiAnalyze.
  destruct (trim aiText); [discriminate|].
  destruct (or_else _ _); [|discriminate].
  now intros [= <-].
Qed.

Lemma analysis_type_is_passed_through_witness :
  let result := {| Analysis.title := js "BYD opens a showroom";
                   Analysis.summary := js "A new showroom in Dubai.";
                   Analysis.brand := js "BYD";
                   Analysis.type := js "sales";
                   Analysis.date := js "2025-01-13";
                   Analysis.url := None;
                   Analysis.image_keywords := None |} in
  match handleAiAnalyze 7 (js "BYD opened a showroom.")
          (js "https://example.com/a.jpg") (inr result) with
  | Added item => News.type item = js "sales"
  | _ => False
  end.
Proof.
  intros result.
  destruct (handleAiAnalyze 7 (js "BYD opened a showroom.")
              (js "https://example.com/a.jpg") (inr result))
    as [|item|m] eqn:E.
  - vm_compute in E; discriminate E.
  - exact (analysis_type_is_passed_through _ _ _ _ _ E).
  - vm_compute in E; discriminate E.
Defined.

Lemma generateImageUrl_nonempty (seed : N) (prompt u : js_string) :
  generateImageUrl seed prompt = Some u -> u <> [].
Proof.
  unfold generateImageUrl.
  destruct (encodeURIComponent prompt); [|discriminate].
  intros [= <-]; discriminate.
Qed.

Lemma or_else_trim (s : js_string) (g : option js_string) (u : js_string) :
  or_else (trim s) g = Some u ->
  (forallb is_space s = true /\ g = Some u)
  \/ (forallb is_space s = false /\ u = trim s /\ u <> []).
Proof.
  destruct (forallb is_space s) eqn:F.
  - rewrite (trim_spaces s F); simpl; auto.
  - pose proof (trim_nonempty s F) as Hne.
    destruct (trim s) eqn:E; [contradiction|].
    simpl; intros [= <-]; right; auto.
Qed.



(** ** The matcher on the patterns of [extractContent] *)

Lemma run_lit_ci (pat : js_string) (k : Regex.cont) (s : js_string)
    (caps : list js_string) :
  Regex.run (lit_ci pat) k s caps
  = match strip_ci pat s with
    | Some s' => k s' caps
    | None => None
    end.
Proof.
  revert s; induction pat as [|c pat IH]; intros s; [reflexivity|].
  destruct s as [|x s]; [reflexivity|].
  change (Regex.run (lit_ci (c :: pat)) k (x :: s) caps)
    with (if ci_chr c x then Regex.run (lit_ci pat) k s caps else None).
  cbn [strip_ci]. destruct (ci_chr c x); [apply IH|reflexivity].
Qed.

Lemma ci_chr_refl (c : N) : ci_chr c c = true.
Proof. unfold ci_chr; apply N.eqb_refl. Qed.

Lemma strip_ci_self (pat w : js_string) : strip_ci pat (pat ++ w) = Some w.
Proof.
  induction pat as [|c pat IH]; [reflexivity|].
  cbn [app strip_ci]. now rewrite ci_chr_refl.
Qed.

Lemma strip_ci_split (pat v r : js_string) :
  strip_ci pat v = Some r ->
  exists u, v = u ++ r /\ List.length u = List.length pat.
Proof.
  revert v; induction pat as [|c pat IH]; intros v; cbn [strip_ci].
  - intros [= <-]; now exists [].
  - destruct v as [|x v]; [discriminate|].
    destruct (ci_chr c x); [|discriminate].
    intros H; destruct (IH _ H) as (u & -> & L).
    exists (x :: u); split; [reflexivity|simpl; now rewrite L].
Qed.

(** A pattern without [<] never runs over the [<] that follows [v]. *)
Lemma strip_ci_hole (pat v z : js_string) :
  no_lt pat = true ->
  strip_ci pat (v ++ LT :: z)
  = option_map (fun r => r ++ LT :: z) (strip_ci pat v).
Proof.
  intros Hp; revert v; induction pat as [|c pat IH]; intros v;
    [reflexivity|].
  cbn [no_lt forallb] in Hp; apply andb_prop in Hp as [Hc Hp].
  destruct v as [|x v]; cbn [app strip_ci].
  - apply negb_true_iff in Hc; now rewrite Hc.
  - destruct (ci_chr c x); [now apply IH|reflexivity].
Qed.

Lemma strip_ci_hole1 (c : N) (pat v z : js_string) :
  no_lt pat = true -> v <> [] ->
  strip_ci (c :: pat) (v ++ LT :: z)
  = option_map (fun r => r ++ LT :: z) (strip_ci (c :: pat) v).
Proof.
  intros Hp Hv; destruct v as [|x v]; [contradiction|].
  cbn [app strip_ci]. destruct (ci_chr c x); [|reflexivity].
  now apply strip_ci_hole.
Qed.

Lemma occurs_ci_suffix (pat u r : js_string) :
  occurs_ci pat (u ++ r) = false -> strip_ci pat r = None.
Proof.
  induction u as [|x u IH]; cbn [app].
  - destruct r; cbn [occurs_ci]; destruct (strip_ci pat _); easy.
  - cbn [occurs_ci]. destruct (strip_ci pat (x :: u ++ r)); [discriminate|].
    exact IH.
Qed.

Lemma letter_not_lt (c : N) :
  (97 <=? c) && (c <=? 122) = true -> negb (ci_chr c LT) = true.
Proof.
  intros H; unfold ci_chr, canon, LT; rewrite H.
  apply andb_prop in H as [H1 H2].
  apply N.leb_le in H1; apply N.leb_le in H2.
  change (negb (60 =? c - 32) = true).
  apply negb_true_iff, N.eqb_neq. lia.
Qed.

Lemma letter_not_gt (c : N) :
  (97 <=? c) && (c <=? 122) = true -> not_chr GT c = true.
Proof.
  intros H; apply andb_prop in H as [H1 H2].
  apply N.leb_le in H1; apply N.leb_le in H2.
  unfold not_chr, GT. apply negb_true_iff, N.eqb_neq. lia.
Qed.

Lemma letter_not_slash (c : N) :
  (97 <=? c) && (c <=? 122) = true -> ci_chr 47 c = false.
Proof.
  intros H; unfold ci_chr, canon; rewrite H.
  apply andb_prop in H as [H1 H2].
  apply N.leb_le in H1; apply N.leb_le in H2.
  change ((c - 32 =? 47) = false).
  apply N.eqb_neq. lia.
Qed.

Lemma tag_no_lt (tag : js_string) :
  tag_name tag = true -> no_lt (tag ++ [GT]) = true.
Proof.
  unfold tag_name, no_lt; intros H.
  rewrite forallb_app; apply andb_true_intro; split; [|reflexivity].
  rewrite forallb_forall in *; intros c Hc; apply letter_not_lt; auto.
Qed.

Lemma close_tag_eq (tag : js_string) :
  close_tag tag = LT :: 47 :: tag ++ [GT].
Proof. reflexivity. Qed.

Lemma close_no_lt (tag : js_string) :
  tag_name tag = true -> no_lt (47 :: tag ++ [GT]) = true.
Proof.
  intros H; pose proof (tag_no_lt tag H) as T.
  unfold no_lt in *; cbn [forallb]; now rewrite T.
Qed.

Lemma exec_block_eq (tag s : js_string) :
  Regex.exec (block_re tag) s
  = match strip_ci (LT :: tag) s with
    | Some s' => after_open tag s' []
    | None => None
    end.
Proof.
  unfold Regex.exec, block_re.
  change (Regex.run (lit_ci (LT :: tag) ;; Star (not_chr GT) ;;
                     Chr (is_chr GT) ;; Lazy any_chr ;;
                     lit_ci (js "</" ++ tag ++ [GT]))%re
            (fun s' caps => Some (caps, s')) s [])
    with (Regex.run (lit_ci (LT :: tag)) (after_open tag) s []).
  apply run_lit_ci.
Qed.

Lemma close_k_eq (tag s : js_string) (caps : list js_string) :
  Regex.run (lit_ci (close_tag tag)) K0 s caps
  = match strip_ci (close_tag tag) s with
    | Some s' => Some (caps, s')
    | None => None
    end.
Proof. apply run_lit_ci. Qed.

Lemma find_close_cons (tag : js_string) (x : N) (s : js_string)
    (caps : list js_string) :
  find_close tag (x :: s) caps
  = match strip_ci (close_tag tag) (x :: s) with
    | Some s' => Some (caps, s')
    | None => find_close tag s caps
    end.
Proof.
  unfold find_close at 1. cbn [Regex.star_lazy].
  rewrite close_k_eq. destruct (strip_ci (close_tag tag) (x :: s));
    reflexivity.
Qed.

Lemma after_open_cons (tag : js_string) (x : N) (s : js_string)
    (caps : list js_string) :
  after_open tag (x :: s) caps
  = if x =? GT then find_close tag s caps else after_open tag s caps.
Proof.
  unfold after_open. cbn [Regex.star_greedy].
  assert (E : after_gt tag (x :: s) caps
              = if x =? GT then find_close tag s caps else None)
    by reflexivity.
  rewrite E. unfold not_chr. destruct (x =? GT); cbn [negb]; [reflexivity|].
  now destruct (Regex.star_greedy _ _ s caps).
Qed.

Lemma find_close_skip (tag o w : js_string) (caps : list js_string) :
  (forall o1 o2, o = o1 ++ o2 -> o2 <> [] ->
                 strip_ci (close_tag tag) (o2 ++ w) = None) ->
  find_close tag (o ++ w) caps = find_close tag w caps.
Proof.
  induction o as [|x o IH]; intros H; [reflexivity|].
  cbn [app]. rewrite find_close_cons.
  assert (E := H [] (x :: o) eq_refl ltac:(discriminate)).
  cbn [app] in E; rewrite E.
  apply IH. intros o1 o2 -> Hne. exact (H (x :: o1) o2 eq_refl Hne).
Qed.

(** The first closing tag after an inside that holds none is the one that
    follows it. *)
Lemma find_close_inner (tag inner post : js_string)
    (caps : list js_string) :
  tag_name tag = true ->
  occurs_ci (close_tag tag) inner = false ->
  find_close tag (inner ++ close_tag tag ++ post) caps = Some (caps, post).
Proof.
  intros Ht Hin.
  assert (E : close_tag tag ++ post = LT :: (47 :: tag ++ [GT]) ++ post)
    by reflexivity.
  rewrite find_close_skip.
  - rewrite E, find_close_cons, <- E. now rewrite strip_ci_self.
  - intros o1 o2 -> Hne. rewrite E.
    rewrite close_tag_eq, strip_ci_hole1; auto using close_no_lt.
    rewrite <- close_tag_eq.
    now rewrite (occurs_ci_suffix _ _ _ Hin).
Qed.

Lemma tag_char_not_lt (tag : js_string) (h : N) :
  tag_name tag = true -> In h (tag ++ [GT]) -> ci_chr LT h = false.
Proof.
  intros Ht Hin. pose proof (tag_no_lt tag Ht) as T.
  unfold no_lt in T; rewrite forallb_forall in T.
  specialize (T h Hin). apply negb_true_iff in T.
  unfold ci_chr in *. now rewrite N.eqb_sym.
Qed.

Lemma find_close_open (tag w : js_string) (caps : list js_string) :
  tag_name tag = true ->
  find_close tag (open_tag tag ++ w) caps = find_close tag w caps.
Proof.
  intros Ht. unfold open_tag. cbn [app]. rewrite find_close_cons.
  assert (E : strip_ci (close_tag tag) (LT :: (tag ++ [GT]) ++ w) = None).
  { rewrite close_tag_eq. cbn [strip_ci]. rewrite ci_chr_refl.
    destruct tag as [|c tag]; cbn [app]; [reflexivity|].
    cbn [tag_name forallb] in Ht. apply andb_prop in Ht as [Hc _].
    now rewrite (letter_not_slash c Hc). }
  rewrite E. apply find_close_skip.
  intros o1 [|h o2] Ho Hne; [contradiction|].
  rewrite close_tag_eq. cbn [app strip_ci].
  rewrite (tag_char_not_lt tag h Ht); [reflexivity|].
  rewrite Ho. apply in_or_app; right; now left.
Qed.

Lemma after_open_name (tag name w : js_string) (caps : list js_string) :
  tag_name name = true ->
  after_open tag (name ++ GT :: w) caps = find_close tag w caps.
Proof.
  induction name as [|c name IH]; intros Hn; cbn [app];
    rewrite after_open_cons.
  - reflexivity.
  - cbn [tag_name forallb] in Hn. apply andb_prop in Hn as [Hc Hn].
    pose proof (letter_not_gt c Hc) as G. unfold not_chr in G.
    apply negb_true_iff in G. rewrite G. now apply IH.
Qed.

Lemma after_open_open (tag w : js_string) (caps : list js_string) :
  tag_name tag = true ->
  after_open tag (open_tag tag ++ w) caps = find_close tag w caps.
Proof.
  intros Ht. unfold open_tag. cbn [app]. rewrite after_open_cons.
  change (LT =? GT) with false. cbv iota.
  rewrite <- app_assoc. now apply after_open_name.
Qed.

Lemma exec_block_open (tag w : js_string) :
  Regex.exec (block_re tag) (open_tag tag ++ w) = find_close tag w [].
Proof.
  rewrite exec_block_eq. unfold open_tag.
  replace ((LT :: tag ++ [GT]) ++ w) with ((LT :: tag) ++ GT :: w)
    by (cbn [app]; now rewrite <- app_assoc).
  rewrite strip_ci_self, after_open_cons. now rewrite N.eqb_refl.
Qed.

(** A block whose inside holds no closing tag is closed where the text
    after it starts. *)
Lemma block_closed_at (tag inner post : js_string) :
  tag_name tag = true ->
  occurs_ci (close_tag tag) inner = false ->
  closed_at tag (open_tag tag ++ inner ++ close_tag tag) post.
Proof.
  intros Ht Hin.
  assert (E : (open_tag tag ++ inner ++ close_tag tag) ++ post
              = open_tag tag ++ inner ++ close_tag tag ++ post)
    by now rewrite <- !app_assoc.
  unfold closed_at; rewrite E.
  split; [now eexists|].
  rewrite exec_block_open, after_open_open, find_close_open by assumption.
  now rewrite !find_close_inner.
Qed.

Lemma replace_from_skip (r : regex) (rep a b : js_string) :
  Regex.replace_from r rep (a ++ b) (List.length a)
  = Regex.replace_from r rep b 0.
Proof. induction a as [|x a IH]; [reflexivity|exact IH]. Qed.

(** ** What stands in a closed block does not reach the output of the pass
    that strips the blocks of its tag *)

Section Hole.

Variables tag z1 z2 post : js_string.
Hypothesis Htag : tag_name tag = true.
Hypothesis Hz1 : closed_at tag z1 post.
Hypothesis Hz2 : closed_at tag z2 post.

Lemma agree_app (u v : js_string) (o1 o2 : option Regex.result) :
  agree v z1 z2 post o1 o2 -> agree (u ++ v) z1 z2 post o1 o2.
Proof.
  intros [H|[(u' & r & -> & Hne & E1 & E2)|H]];
    [now left| |now right; right].
  right; left. exists (u ++ u'), r. rewrite app_assoc.
  repeat split; auto. destruct u; [exact Hne|discriminate].
Qed.

Lemma agree_cons (x : N) (v : js_string) (o1 o2 : option Regex.result) :
  agree v z1 z2 post o1 o2 -> agree (x :: v) z1 z2 post o1 o2.
Proof. apply (agree_app [x]). Qed.

Lemma strip_ci_agree (c : N) (pat v : js_string) :
  no_lt pat = true -> v <> [] ->
  (strip_ci (c :: pat) (v ++ z1 ++ post) = None
   /\ strip_ci (c :: pat) (v ++ z2 ++ post) = None)
  \/ (exists u r, v = u ++ r /\ u <> []
                  /\ strip_ci (c :: pat) (v ++ z1 ++ post)
                     = Some (r ++ z1 ++ post)
                  /\ strip_ci (c :: pat) (v ++ z2 ++ post)
                     = Some (r ++ z2 ++ post)).
Proof.
  intros Hp Hv.
  destruct Hz1 as [[z1' E1] _], Hz2 as [[z2' E2] _].
  rewrite E1, E2; cbn [app].
  rewrite !strip_ci_hole1 by assumption.
  destruct (strip_ci (c :: pat) v) as [r|] eqn:S; [|now left].
  right. destruct (strip_ci_split _ _ _ S) as (u & -> & L).
  exists u, r; repeat split; auto.
  destruct u; [discriminate|discriminate].
Qed.

Lemma find_close_agree (v : js_string) :
  agree v z1 z2 post
    (find_close tag (v ++ z1 ++ post) [])
    (find_close tag (v ++ z2 ++ post) []).
Proof.
  induction v as [|x v IH].
  - right; right. destruct Hz1 as (_ & _ & _ & F1), Hz2 as (_ & _ & _ & F2).
    now split.
  - cbn [app]. rewrite !find_close_cons.
    destruct (strip_ci_agree LT (47 :: tag ++ [GT]) (x :: v))
      as [[E1 E2]|(u & r & E & Hne & E1 & E2)];
      [now apply close_no_lt|discriminate| |];
      rewrite <- close_tag_eq in E1, E2; cbn [app] in E1, E2;
      rewrite E1, E2.
    + now apply agree_cons.
    + right; left. now exists u, r.
Qed.

Lemma after_open_agree (v : js_string) :
  agree v z1 z2 post
    (after_open tag (v ++ z1 ++ post) [])
    (after_open tag (v ++ z2 ++ post) []).
Proof.
  induction v as [|x v IH].
  - right; right. destruct Hz1 as (_ & _ & F1 & _), Hz2 as (_ & _ & F2 & _).
    now split.
  - cbn [app]. rewrite !after_open_cons. apply agree_cons.
    destruct (x =? GT); [apply find_close_agree|exact IH].
Qed.

Lemma exec_block_agree (v : js_string) :
  v <> [] ->
  agree v z1 z2 post
    (Regex.exec (block_re tag) (v ++ z1 ++ post))
    (Regex.exec (block_re tag) (v ++ z2 ++ post)).
Proof.
  intros Hv. rewrite !exec_block_eq.
  assert (Hn : no_lt tag = true).
  { pose proof (tag_no_lt tag Htag) as T. unfold no_lt in *.
    rewrite forallb_app in T. now apply andb_prop in T as [T _]. }
  destruct (strip_ci_agree LT tag v Hn Hv)
    as [[E1 E2]|(u & r & E & Hne & E1 & E2)]; rewrite E1, E2.
  - now left.
  - rewrite E. apply agree_app, after_open_agree.
Qed.

Lemma strip_block_hole_bounded (n : nat) (v : js_string) :
  (List.length v <= n)%nat ->
  Regex.replace_from (block_re tag) [] (v ++ z1 ++ post) 0
  = Regex.replace_from (block_re tag) [] (v ++ z2 ++ post) 0.
Proof.
  revert v; induction n as [|n IH]; intros v Hlen.
  - destruct v; [|simpl in Hlen; lia].
    destruct Hz1 as ([z1' E1] & X1 & _), Hz2 as ([z2' E2] & X2 & _).
    cbn [app]. revert X1 X2. rewrite E1, E2. cbn [app]. intros X1 X2.
    cbn [Regex.replace_from]. rewrite X1, X2.
    replace (List.length (LT :: z1' ++ post) - List.length post)%nat
      with (S (List.length z1')) by (cbn [List.length]; rewrite length_app; lia).
    replace (List.length (LT :: z2' ++ post) - List.length post)%nat
      with (S (List.length z2')) by (cbn [List.length]; rewrite length_app; lia).
    cbn [app]. now rewrite !replace_from_skip.
  - destruct v as [|x v]; [apply IH; simpl; lia|].
    cbn [app Regex.replace_from].
    destruct (exec_block_agree (x :: v))
      as [[E1 E2]|[(u & r & E & Hne & E1 & E2)|[E1 E2]]];
      [discriminate| | |]; cbn [app] in E1, E2; rewrite E1, E2.
    + f_equal. apply IH. simpl in Hlen; lia.
    + destruct u as [|y u]; [contradiction|].
      injection E as <- ->.
      replace (List.length (x :: (u ++ r) ++ z1 ++ post)
               - List.length (r ++ z1 ++ post))%nat
        with (S (List.length u))
        by (cbn [List.length]; rewrite <- app_assoc, !length_app; lia).
      replace (List.length (x :: (u ++ r) ++ z2 ++ post)
               - List.length (r ++ z2 ++ post))%nat
        with (S (List.length u))
        by (cbn [List.length]; rewrite <- app_assoc, !length_app; lia).
      cbn [app]. rewrite <- !app_assoc, !replace_from_skip.
      apply IH. simpl in Hlen. rewrite length_app in Hlen. lia.
    + replace (List.length (x :: v ++ z1 ++ post) - List.length post)%nat
        with (S (List.length (v ++ z1)))
        by (cbn [List.length]; rewrite !length_app; lia).
      replace (List.length (x :: v ++ z2 ++ post) - List.length post)%nat
        with (S (List.length (v ++ z2)))
        by (cbn [List.length]; rewrite !length_app; lia).
      cbn [app]. rewrite !app_assoc, !replace_from_skip. reflexivity.
Qed.

Lemma strip_block_hole (v : js_string) :
  Regex.replace_all (block_re tag) [] (v ++ z1 ++ post)
  = Regex.replace_all (block_re tag) [] (v ++ z2 ++ post).
Proof. exact (strip_block_hole_bounded (List.length v) v (le_n _)). Qed.

End Hole.

Lemma occurs_ci_tail (pat : js_string) (x : N) (s : js_string) :
  occurs_ci pat (x :: s) = false ->
  strip_ci pat (x :: s) = None /\ occurs_ci pat s = false.
Proof.
  cbn [occurs_ci]. destruct (strip_ci pat (x :: s)); [discriminate|auto].
Qed.

(** A pass leaves alone an input in which its opening literal does not
    occur. *)
Lemma strip_block_absent (tag s : js_string) :
  occurs_ci (LT :: tag) s = false ->
  Regex.replace_all (block_re tag) [] s = s.
Proof.
  unfold Regex.replace_all. induction s as [|x s IH]; intros H.
  - cbn [Regex.replace_from]. now rewrite exec_block_eq.
  - apply occurs_ci_tail in H as [H1 H2].
    cbn [Regex.replace_from]. rewrite exec_block_eq, H1.
    now rewrite IH.
Qed.

Lemma script_tags :
  js "<script>" = open_tag (js "script")
  /\ js "</script>" = close_tag (js "script")
  /\ js "<script" = LT :: js "script"
  /\ js "<style>" = open_tag (js "style")
  /\ js "</style>" = close_tag (js "style").
Proof. repeat split. Qed.

Lemma strip_block_inside (tag pre inner1 inner2 post : js_string) :
  tag_name tag = true ->
  occurs_ci (close_tag tag) inner1 = false ->
  occurs_ci (close_tag tag) inner2 = false ->
  Regex.replace_all (block_re tag) []
    (pre ++ open_tag tag ++ inner1 ++ close_tag tag ++ post)
  = Regex.replace_all (block_re tag) []
      (pre ++ open_tag tag ++ inner2 ++ close_tag tag ++ post).
Proof.
  intros Ht H1 H2.
  pose proof (strip_block_hole tag _ _ post Ht
                (block_closed_at tag inner1 post Ht H1)
                (block_closed_at tag inner2 post Ht H2) pre) as E.
  now rewrite <- !app_assoc in E.
Qed.




(** ** The title *)

Lemma exec_title_eq (s : js_string) :
  Regex.exec title_re s
  = match strip_ci (js "<title") s with
    | Some s' => title_tail s' []
    | None => None
    end.
Proof.
  unfold Regex.exec, title_re.
  change (Regex.run
            (lit_ci (js "<title") ;; Star (not_chr GT) ;; Chr (is_chr GT) ;;
             Group (Chr (not_chr LT) ;; Star (not_chr LT)) ;;
             lit_ci (js "</title>"))%re
            (fun s' caps => Some (caps, s')) s [])
    with (Regex.run (lit_ci (js "<title")) title_tail s []).
  apply run_lit_ci.
Qed.

Lemma search_title_absent (s : js_string) :
  occurs_ci (js "<title") s = false -> Regex.search title_re s = None.
Proof.
  induction s as [|x s IH]; intros H; cbn [Regex.search].
  - now rewrite exec_title_eq.
  - apply occurs_ci_tail in H as [H1 H2].
    rewrite exec_title_eq, H1. now apply IH.
Qed.

Lemma strip_ci_app (a b s : js_string) :
  strip_ci (a ++ b) s
  = match strip_ci a s with
    | Some s' => strip_ci b s'
    | None => None
    end.
Proof.
  revert s; induction a as [|c a IH]; intros s; [reflexivity|].
  destruct s as [|x s]; cbn [app strip_ci]; [reflexivity|].
  destruct (ci_chr c x); [apply IH|reflexivity].
Qed.

Lemma strip_ci_more (pat s r w : js_string) :
  strip_ci pat s = Some r -> strip_ci pat (s ++ w) = Some (r ++ w).
Proof.
  revert s; induction pat as [|c pat IH]; intros s; cbn [strip_ci].
  - now intros [= ->].
  - destruct s as [|x s]; [discriminate|]. cbn [app strip_ci].
    destruct (ci_chr c x); [apply IH|discriminate].
Qed.

Lemma ci_eqb_strip (pat s w : js_string) :
  ci_eqb pat s = true -> strip_ci pat (s ++ w) = Some w.
Proof.
  unfold ci_eqb. destruct (strip_ci pat s) as [[|? ?]|] eqn:E;
    try discriminate.
  intros _. exact (strip_ci_more _ _ _ w E).
Qed.

Lemma ci_chr_low (c x : N) : c < 65 -> ci_chr c x = true -> x = c.
Proof.
  intros Hc. unfold ci_chr, canon.
  destruct (N.leb_spec 97 c); [lia|]. cbn [andb].
  destruct (N.leb_spec 97 x); destruct (N.leb_spec x 122); cbn [andb];
    intros E; apply N.eqb_eq in E; lia.
Qed.

Lemma ci_head (c : N) (pat s w : js_string) :
  c < 65 -> strip_ci (c :: pat) s = Some w -> exists s', s = c :: s'.
Proof.
  intros Hc. destruct s as [|x s]; cbn [strip_ci]; [discriminate|].
  destruct (ci_chr c x) eqn:E; [|discriminate].
  intros _. apply (ci_chr_low c x Hc) in E. subst. now eexists.
Qed.

Lemma star_greedy_run (p : N -> bool) (k : Regex.cont) (v w : js_string)
    (caps : list js_string) (r : Regex.result) :
  forallb p v = true ->
  Regex.star_greedy p k w caps = Some r ->
  Regex.star_greedy p k (v ++ w) caps = Some r.
Proof.
  intros Hv Hw. induction v as [|x v IH]; [exact Hw|].
  cbn [forallb] in Hv; apply andb_prop in Hv as [Hx Hv].
  cbn [app Regex.star_greedy]. now rewrite Hx, (IH Hv).
Qed.

Lemma firstn_prefix (a b : js_string) :
  firstn (List.length (a ++ b) - List.length b) (a ++ b) = a.
Proof.
  rewrite length_app.
  replace (List.length a + List.length b - List.length b)%nat
    with (List.length a + 0)%nat by lia.
  rewrite firstn_app_2. cbn [firstn]. apply app_nil_r.
Qed.

(** The pattern matched at the opening tag captures the run up to the
    closing tag. *)
Lemma exec_title_here (o X c post : js_string) :
  ci_eqb (js "<title>") o = true ->
  ci_eqb (js "</title>") c = true ->
  X <> [] -> forallb (not_chr LT) X = true ->
  Regex.exec title_re (o ++ X ++ c ++ post) = Some ([X], post).
Proof.
  intros Ho Hc HX Hlt.
  rewrite exec_title_eq.
  pose proof (ci_eqb_strip _ _ (X ++ c ++ post) Ho) as S.
  change (js "<title>") with (js "<title" ++ [GT]) in S.
  rewrite strip_ci_app in S.
  destruct (strip_ci (js "<title") (o ++ X ++ c ++ post)) as [s'|];
    [|discriminate].
  destruct (ci_head GT [] s' _ ltac:(reflexivity) S) as [s'' ->].
  cbn [strip_ci] in S. rewrite ci_chr_refl in S. injection S as ->.
  destruct X as [|x X]; [contradiction|].
  cbn [forallb] in Hlt; apply andb_prop in Hlt as [Hx Hlt].
  pose proof (ci_eqb_strip _ _ post Hc) as C.
  destruct (ci_head LT _ _ _ ltac:(reflexivity) C) as [c' Ec].
  unfold title_tail.
  cbn [Regex.run Regex.star_greedy app].
  change (not_chr GT GT) with false. cbv iota.
  change (is_chr GT GT) with true. cbv iota.
  rewrite Hx.
  erewrite star_greedy_run; [reflexivity|exact Hlt|].
  rewrite Ec at 1. cbn [app Regex.star_greedy].
  change (not_chr LT LT) with false. cbv iota.
  rewrite <- Ec, run_lit_ci, C.
  unfold K0. cbn [app].
  change (x :: X ++ c ++ post) with ((x :: X) ++ c ++ post).
  now rewrite firstn_prefix.
Qed.

Lemma search_title_first (pre o X c post : js_string) :
  occurs_ci (js "<title") pre = false ->
  ci_eqb (js "<title>") o = true ->
  ci_eqb (js "</title>") c = true ->
  X <> [] -> forallb (not_chr LT) X = true ->
  Regex.search title_re (pre ++ o ++ X ++ c ++ post) = Some ([X], post).
Proof.
  intros Hpre Ho Hc HX Hlt.
  pose proof (exec_title_here o X c post Ho Hc HX Hlt) as Here.
  pose proof (ci_eqb_strip _ _ (X ++ c ++ post) Ho) as S.
  destruct (ci_head LT _ _ _ ltac:(reflexivity) S) as [o' Eo].
  induction pre as [|x pre IH].
  - cbn [app]. destruct (o ++ X ++ c ++ post); cbn [Regex.search];
      now rewrite Here.
  - apply occurs_ci_tail in Hpre as [H1 H2].
    cbn [app Regex.search]. rewrite exec_title_eq.
    assert (E : strip_ci (js "<title") (x :: pre ++ o ++ X ++ c ++ post)
                = None).
    { rewrite Eo.
      change (x :: pre ++ LT :: o') with ((x :: pre) ++ LT :: o').
      change (js "<title") with (LT :: js "title").
      rewrite strip_ci_hole1; [|reflexivity|discriminate].
      change (LT :: js "title") with (js "<title"). now rewrite H1. }
    rewrite E. now apply IH.
Qed.

(** C6, as stated, fails: a title element with nothing inside is not
    matched by the pattern, and the title is the placeholder, not the empty
    string. *)
Lemma empty_title_gives_placeholder :
  let html := js "<html><head><title></title></head><body>Hello</body></html>" in
  title (extractContent html) = untitled
  /\ title (extractContent html) <> trim [].
Proof. split; [vm_compute; reflexivity|vm_compute; discriminate]. Qed.

(** C6, amended: when the first [<title] of the input opens a
    [<title>X</title>] pair (in any case) whose [X] is not empty and holds
    no [<], the title is [X] trimmed; when [<title] does not occur in the
    input (in any case), the title is the placeholder. *)
Theorem title_of_first_pair_or_placeholder :
  (forall pre o X c post : js_string,
      occurs_ci (js "<title") pre = false ->
      ci_eqb (js "<title>") o = true ->
      ci_eqb (js "</title>") c = true ->
      X <> [] -> forallb (not_chr LT) X = true ->
      title (extractContent (pre ++ o ++ X ++ c ++ post)) = trim X)
  /\ (forall html : js_string,
        occurs_ci (js "<title") html = false ->
        title (extractContent html) = untitled).
Proof.
  split.
  - intros pre o X c post Hpre Ho Hc HX Hlt.
    unfold extractContent; cbn [title]. unfold extract_title.
    now rewrite (search_title_first pre o X c post Hpre Ho Hc HX Hlt).
  - intros html H.
    unfold extractContent; cbn [title]. unfold extract_title.
    now rewrite (search_title_absent html H).
Qed.

Lemma title_of_first_pair_or_placeholder_witness :
  title (extractContent
           (js "<html><head>" ++ js "<TITLE>" ++ js "  BYD opens a showroom "
            ++ js "</Title>" ++ js "<title>second</title></head></html>"))
  = js "BYD opens a showroom"
  /\ title (extractContent (js "<html><body><h1>No head</h1></body></html>"))
     = untitled.
Proof.
  split.
  - apply (proj1 title_of_first_pair_or_placeholder
             (js "<html><head>") (js "<TITLE>")
             (js "  BYD opens a showroom ") (js "</Title>")
             (js "<title>second</title></head></html>"));
      try reflexivity.
    vm_compute; discriminate.
  - apply (proj2 title_of_first_pair_or_placeholder); reflexivity.
Defined.

(** * Further properties of the handler *)

Lemma rethrow_message (e : error) :
  message (rethrow e)
  = if js_eqb (name e) (js "AbortError") then timeout_message
    else message e.
Proof.
  unfold rethrow, timeout_message.
  destruct (js_eqb (name e) (js "AbortError")); [|reflexivity].
  unfold Error; cbn [message]. reflexivity.
Qed.

(** Either the store is as it was, or the request was answered with an
    item. *)
Lemma handler_store_cases (req : request) (w : world) (st : store) :
  after req w st = st
  \/ exists item, payload_of (answer req w st) = SuccessPayload item.
Proof.
  unfold answer, after, handler.
  destruct (req_method req); cbn [fst snd]; try (now left);
    destruct (falsy (env_token w)); cbn [fst snd]; try (now left).
  destruct (req_body req) as [|[[|c u]|]]; cbn [fst snd]; try (now left).
  unfold attempt.
  destruct (prepare (c :: u) w st) as [[e|[newItem lst]] ops];
    cbn [fst snd]; [now left|].
  unfold commit. destruct (put_rejects w); cbn [fst snd]; [now left|].
  right. now exists newItem.
Qed.

(** X1: a request that is not answered with an item leaves the store as it
    was. *)
Theorem failed_request_leaves_store (req : request) (w : world)
    (st : store) :
  (forall item, payload_of (answer req w st) <> SuccessPayload item) ->
  after req w st = st.
Proof.
  intros H.
  destruct (handler_store_cases req w st) as [E|[item E]]; [exact E|].
  now contradiction (H item).
Qed.

Lemma failed_request_leaves_store_witness :
  let w := with_page (Responded 404 (inr (js "Not found")))
             (sample_world "aaaa1111" (BlobResponded true)) in
  let st := [queue_blob (JsonArray [sample_item "0000zzzz" "https://example.com/0"])] in
  after (post "https://example.com/a") w st = st.
Proof.
  intros w st. apply failed_request_leaves_store.
  intros item. vm_compute. discriminate.
Defined.

(** X2: a [POST] answered with status 200 has stored its item: the answer
    carries the item, and the item is the head of the stored queue. *)
Theorem ok_answer_means_stored (req : request) (w : world) (st : store) :
  req_method req = POST ->
  status (answer req w st) = 200 ->
  exists item l,
    payload_of (answer req w st) = SuccessPayload item
    /\ stored (after req w st) = Some (JsonArray (item :: l)).
Proof.
  intros Hm Hs.
  assert (exists item, payload_of (answer req w st) = SuccessPayload item)
    as [item Hp].
  { revert Hs. unfold answer, handler. rewrite Hm.
    destruct (falsy (env_token w)); cbn [fst snd status reply];
      [discriminate|].
    destruct (req_body req) as [|[[|c u]|]]; cbn [fst snd status reply];
      try discriminate.
    destruct (attempt (c :: u) w st) as [[[e|newItem] st'] ops];
      cbn [fst snd status reply payload_of]; [discriminate|].
    intros _. now exists newItem. }
  destruct (handler_success_stored _ _ _ _ Hp) as (l & _ & S).
  now exists item, l.
Qed.

Lemma ok_answer_means_stored_witness :
  exists item l,
    payload_of (answer (post "https://example.com/a")
                  (sample_world "aaaa1111" (BlobResponded true)) [])
    = SuccessPayload item
    /\ stored (after (post "https://example.com/a")
                 (sample_world "aaaa1111" (BlobResponded true)) [])
       = Some (JsonArray (item :: l)).
Proof.
  apply ok_answer_means_stored; vm_compute; reflexivity.
Defined.

(** X3: a page answered with a status outside 200..299 is reported with
    status 500 and a message that ends with that status; the store is not
    read and not changed. *)
Theorem upstream_status_reported (w : world) (st : store) (url : js_string)
    (n : N) (content : error + js_string) :
  falsy (env_token w) = false -> url <> [] ->
  page w = Responded n content -> ok_status n = false ->
  handler {| req_method := POST; req_body := Body (Some url) |} w st
  = (reply 500 (ErrorPayload (js "抓取失败: 目标网站返回 " ++ decimal n)),
     st, []).
Proof.
  intros Ht Hu Hp Hok.
  unfold handler; cbn; rewrite Ht.
  destruct url as [|c u]; [contradiction|].
  unfold attempt, prepare; rewrite Hp, Hok; cbn [negb].
  now rewrite rethrow_Error.
Qed.

Lemma upstream_status_reported_witness :
  let w := with_page (Responded 404 (inr (js "Not found")))
             (sample_world "aaaa1111" (BlobResponded true)) in
  handler (post "https://example.com/a") w []
  = (reply 500 (ErrorPayload (js "抓取失败: 目标网站返回 404")), [], []).
Proof.
  intros w.
  apply (upstream_status_reported w [] (js "https://example.com/a") 404
           (inr (js "Not found"))).
  - reflexivity.
  - vm_compute; discriminate.
  - reflexivity.
  - reflexivity.
Defined.

(** X4: when the fetch of the page rejects, the answer is 500 with the
    message of the rejection, except that a rejection named [AbortError] is
    reported with the fixed message for a timeout; the store is not read
    and not changed. *)
Theorem page_rejection_reported (w : world) (st : store) (url : js_string)
    (e : error) :
  falsy (env_token w) = false -> url <> [] -> page w = Rejected e ->
  handler {| req_method := POST; req_body := Body (Some url) |} w st
  = (reply 500
       (ErrorPayload
          (if js_eqb (name e) (js "AbortError") then timeout_message
           else message e)),
     st, []).
Proof.
  intros Ht Hu Hp.
  unfold handler; cbn; rewrite Ht.
  destruct url as [|c u]; [contradiction|].
  unfold attempt, prepare; rewrite Hp. cbn [fst snd].
  now rewrite rethrow_message.
Qed.

Lemma page_rejection_reported_witness :
  let e := {| name := js "TypeError"; message := js "fetch failed" |} in
  let w := with_page (Rejected e)
             (sample_world "aaaa1111" (BlobResponded true)) in
  handler (post "https://example.com/a") w []
  = (reply 500 (ErrorPayload (js "fetch failed")), [], []).
Proof.
  intros e w.
  apply (page_rejection_reported w [] (js "https://example.com/a") e).
  - reflexivity.
  - vm_compute; discriminate.
  - reflexivity.
Defined.

(** X5: when [put] rejects, the answer is 500, the store is left as it was,
    and the queue was read before the write was tried.  The message is that
    of the rejection; a rejection of [put] named [AbortError] is reported
    as a timeout of the page. *)
Theorem put_rejection_reported (w : world) (st : store) (url : js_string)
    (n : N) (html : js_string) (l : list Item.t) (e : error) :
  falsy (env_token w) = false -> url <> [] ->
  page w = Responded n (inr html) -> ok_status n = true ->
  (50 <= List.length (text (extractContent html)))%nat ->
  fst (read_pending w st) = Iterable l ->
  put_rejects w = Some e ->
  handler {| req_method := POST; req_body := Body (Some url) |} w st
  = (reply 500
       (ErrorPayload
          (if js_eqb (name e) (js "AbortError") then timeout_message
           else message e)),
     st, snd (read_pending w st) ++ [OpPut]).
Proof.
  intros Ht Hu Hp Hok Hlen Hr Hput.
  unfold handler; cbn; rewrite Ht.
  destruct url as [|c u]; [contradiction|].
  unfold attempt, prepare; rewrite Hp, Hok; cbv zeta; cbn [negb].
  destruct (Nat.ltb_spec (List.length (text (extractContent html))) 50);
    [lia|].
  destruct (read_pending w st) as [pl ops]; cbn [fst snd] in *; subst pl.
  unfold commit; rewrite Hput. now rewrite rethrow_message.
Qed.

Lemma put_rejection_reported_witness :
  let e := {| name := js "AbortError"; message := js "aborted" |} in
  let w := with_put e (sample_world "aaaa1111" (BlobResponded true)) in
  let st := [queue_blob (JsonArray [sample_item "0000zzzz" "https://example.com/0"])] in
  handler {| req_method := POST;
             req_body := Body (Some (js "https://example.com/a")) |} w st
  = (reply 500
       (ErrorPayload
          (if js_eqb (name e) (js "AbortError") then timeout_message
           else message e)),
     st, snd (read_pending w st) ++ [OpPut]).
Proof.
  intros e w st.
  apply (put_rejection_reported w st (js "https://example.com/a") 200
           sample_html [sample_item "0000zzzz" "https://example.com/0"] e).
  - reflexivity.
  - vm_compute; discriminate.
  - reflexivity.
  - reflexivity.
  - vm_compute; lia.
  - vm_compute; reflexivity.
  - reflexivity.
Defined.

(** X6: when the read obtains a document that parses to a value that is
    not an array, the request is answered with 500 and the document is left
    as it is: no later ingestion repairs the queue. *)
Theorem non_array_document_blocks_ingestion (req : request) (w : world)
    (st : store) :
  reads_document w st -> stored st = Some JsonOther ->
  (forall item, payload_of (answer req w st) <> SuccessPayload item)
  /\ after req w st = st
  /\ stored (after req w st) = Some JsonOther.
Proof.
  intros (Hl & Hb & Hf) Hs.
  assert (R : fst (read_pending w st) = NotIterable).
  { unfold read_pending; rewrite Hl, Hb.
    destruct (find_pending (firstn 100 st)) as [b|] eqn:F; [|contradiction].
    apply find_firstn in F. unfold stored, find_pending in Hs.
    rewrite F in Hs; cbn in Hs. injection Hs as ->. reflexivity. }
  assert (N : forall item, payload_of (answer req w st) <> SuccessPayload item).
  { intros item H.
    destruct (handler_success _ _ _ _ H) as (_ & l & _ & R' & _).
    rewrite R in R'; discriminate. }
  split; [exact N|].
  destruct (handler_store_cases req w st) as [E|[item E]];
    [|now contradiction (N item)].
  rewrite E. now split.
Qed.

Lemma non_array_document_blocks_ingestion_witness :
  let w := sample_world "aaaa1111" (BlobResponded true) in
  let st := [queue_blob JsonOther] in
  after (post "https://example.com/a") w st = st.
Proof.
  intros w st.
  refine (proj1 (proj2 (non_array_document_blocks_ingestion
                          (post "https://example.com/a") w st _ _))).
  - split; [reflexivity|split; [reflexivity|]].
    vm_compute; discriminate.
  - vm_compute; reflexivity.
Defined.

Lemma trim_start_head (s : js_string) (c : N) (r : js_string) :
  trim_start s = c :: r -> is_space c = false.
Proof.
  induction s as [|x s IH]; cbn [trim_start]; [discriminate|].
  destruct (is_space x) eqn:Hx; [exact IH|].
  now intros [= <- _].
Qed.

Lemma trim_last (s r : js_string) (c : N) :
  trim s = r ++ [c] -> is_space c = false.
Proof.
  unfold trim. intros H. apply (f_equal (@rev N)) in H.
  rewrite rev_involutive, rev_app_distr in H. cbn [rev app] in H.
  exact (trim_start_head _ _ _ H).
Qed.

Lemma trim_head (s : js_string) (c : N) (r : js_string) :
  trim s = c :: r -> is_space c = false.
Proof.
  unfold trim. intros H.
  destruct (trim_start_suffix (rev (trim_start s))) as [p Hp].
  apply (f_equal (@rev N)) in Hp.
  rewrite rev_involutive, rev_app_distr, H in Hp.
  destruct (trim_start s) as [|x t] eqn:E; [discriminate|].
  cbn [app] in Hp. injection Hp as -> _.
  exact (trim_start_head _ _ _ E).
Qed.

Lemma starts_black_trim (c : N) (r : js_string) :
  is_space c = false -> trim (c :: r) <> [].
Proof. intros H. apply trim_nonempty. cbn [forallb]. now rewrite H. Qed.

Lemma extracted_text_head (html : js_string) (c : N) (r : js_string) :
  text (extractContent html) = c :: r -> is_space c = false.
Proof.
  unfold extractContent; cbn [text]. unfold clean_text. intros H.
  destruct (trim _) as [|x t] eqn:E; [discriminate|].
  cbn [firstn] in H. injection H as <- _.
  exact (trim_head _ _ _ E).
Qed.

(** X7: the text that [extractContent] returns has at most 5000 code
    units and does not start with white space; when nothing was cut off it
    does not end with white space either. *)
Theorem extracted_text_is_bounded_and_trimmed (html : js_string) :
  (List.length (text (extractContent html)) <= 5000)%nat
  /\ (forall c r, text (extractContent html) = c :: r -> is_space c = false)
  /\ (forall r c,
        (List.length (clean_text (strip_blocks html)) <= 5000)%nat ->
        text (extractContent html) = r ++ [c] -> is_space c = false).
Proof.
  split; [apply firstn_le_length|]. split.
  - apply extracted_text_head.
  - unfold extractContent; cbn [text].
    intros r c Hlen H. rewrite firstn_all2 in H by exact Hlen.
    exact (trim_last _ _ _ H).
Qed.

Lemma extracted_text_is_bounded_and_trimmed_witness :
  (List.length (text (extractContent sample_html)) <= 5000)%nat
  /\ is_space (hd 0 (text (extractContent sample_html))) = false.
Proof.
  split.
  - exact (proj1 (extracted_text_is_bounded_and_trimmed sample_html)).
  - refine (proj1 (proj2 (extracted_text_is_bounded_and_trimmed sample_html))
              (hd 0 (text (extractContent sample_html)))
              (tl (text (extractContent sample_html))) _).
    vm_compute; reflexivity.
Defined.

Lemma handler_success_full (req : request) (w : world) (st : store)
    (item : Item.t) :
  payload_of (answer req w st) = SuccessPayload item ->
  exists url html n,
    req_method req = POST /\ req_body req = Body (Some url) /\ url <> []
    /\ falsy (env_token w) = false
    /\ page w = Responded n (inr html) /\ ok_status n = true
    /\ (50 <= List.length (text (extractContent html)))%nat
    /\ item = new_item url w (extractContent html).
Proof.
  unfold answer, handler.
  destruct (req_method req) eqn:Hm; cbn [fst snd payload_of reply];
    try discriminate;
    destruct (falsy (env_token w)) eqn:Ht; cbn [fst snd payload_of reply];
    try discriminate.
  destruct (req_body req) as [|[[|c u]|]] eqn:Hb;
    cbn [fst snd payload_of reply]; try discriminate.
  unfold attempt, prepare.
  destruct (page w) as [e|n [e|html]] eqn:Hp;
    cbn [fst snd payload_of reply]; try discriminate;
    destruct (ok_status n) eqn:Hok; cbn [negb fst snd payload_of reply];
    try discriminate.
  cbv zeta.
  destruct (Nat.ltb_spec (List.length (text (extractContent html))) 50);
    cbn [fst snd payload_of reply]; try discriminate.
  destruct (read_pending w st) as [[items|] ops];
    cbn [fst snd payload_of reply]; try discriminate.
  destruct (commit _ w st) as [[e|u'] st'];
    cbn [fst snd payload_of reply]; try discriminate.
  intros [= <-]. exists (c :: u), html, n.
  repeat split; auto. discriminate.
Qed.

Lemma ingested_text_not_blank (req : request) (w : world) (st : store)
    (item : Item.t) :
  payload_of (answer req w st) = SuccessPayload item ->
  (50 <= List.length (Item.text item))%nat
  /\ trim (Item.text item) <> [].
Proof.
  intros H.
  destruct (handler_success_full _ _ _ _ H)
    as (url & html & n & _ & _ & _ & _ & _ & _ & Hlen & ->).
  cbn [new_item Item.text]. split; [exact Hlen|].
  destruct (text (extractContent html)) as [|c r] eqn:E;
    [cbn in Hlen; lia|].
  apply starts_black_trim. exact (extracted_text_head html c r E).
Qed.

(** X8: the item of a successful ingestion carries the URL of the request,
    the token drawn for it, and a text of 50 to 5000 code units that is not
    blank. *)
Theorem ingested_item_is_well_formed (req : request) (w : world)
    (st : store) (item : Item.t) :
  payload_of (answer req w st) = SuccessPayload item ->
  req_body req = Body (Some (Item.url item))
  /\ Item.url item <> []
  /\ Item.id item = random_id w
  /\ (50 <= List.length (Item.text item) <= 5000)%nat
  /\ trim (Item.text item) <> [].
Proof.
  intros H.
  destruct (ingested_text_not_blank _ _ _ _ H) as [Hlen Hb].
  destruct (handler_success_full _ _ _ _ H)
    as (url & html & n & _ & Hbody & Hu & _ & _ & _ & _ & E).
  rewrite E in *. cbn [new_item Item.url Item.id Item.text] in *.
  repeat split; auto.
  unfold extractContent; cbn [text]. apply firstn_le_length.
Qed.

Lemma ingested_item_is_well_formed_witness :
  trim (Item.text (sample_item "aaaa1111" "https://example.com/a")) <> [].
Proof.
  refine (proj2 (proj2 (proj2 (proj2
            (ingested_item_is_well_formed (post "https://example.com/a")
               (sample_world "aaaa1111" (BlobResponded true)) []
               (sample_item "aaaa1111" "https://example.com/a") _))))).
  vm_compute; reflexivity.
Defined.

(** X9: whatever the request, the store is listed before anything else is
    done with it, the document is fetched at most once and written at most
    once, and a write is the last operation; a request answered with an
    item has written. *)
Theorem store_operations_are_ordered (req : request) (w : world)
    (st : store) :
  In (store_ops req w st)
     [[]; [OpList]; [OpList; OpGet]; [OpList; OpPut];
      [OpList; OpGet; OpPut]]
  /\ (forall item, payload_of (answer req w st) = SuccessPayload item ->
                   exists ops, store_ops req w st = ops ++ [OpPut]).
Proof.
  assert (R : snd (read_pending w st) = [OpList]
              \/ snd (read_pending w st) = [OpList; OpGet]).
  { unfold read_pending. destruct (list_resolves w); [|now left].
    destruct (find_pending (firstn 100 st)); [|now left].
    destruct (blob_response w) as [|[|]]; try (now right).
    destruct (content b); now right. }
  unfold store_ops, answer, handler.
  destruct (req_method req); cbn [fst snd payload_of reply];
    try (split; [now left|discriminate]);
    destruct (falsy (env_token w)); cbn [fst snd payload_of reply];
    try (split; [now left|discriminate]).
  destruct (req_body req) as [|[[|c u]|]]; cbn [fst snd payload_of reply];
    try (split; [now left|discriminate]).
  unfold attempt, prepare.
  destruct (page w) as [e|n [e|html]]; cbn [fst snd payload_of reply];
    try (split; [now left|discriminate]);
    destruct (ok_status n); cbn [negb fst snd payload_of reply];
    try (split; [now left|discriminate]).
  cbv zeta.
  destruct (List.length (text (extractContent html)) <? 50)%nat;
    cbn [fst snd payload_of reply]; try (split; [now left|discriminate]).
  destruct (read_pending w st) as [[items|] ops]; cbn [fst snd] in *.
  - destruct (commit _ w st) as [[e|u'] st']; cbn [fst snd payload_of reply];
      (split; [|intros; now exists ops]);
      destruct R as [-> | ->]; cbn; auto 6.
  - split; [|discriminate]. destruct R as [-> | ->]; cbn; auto.
Qed.

Lemma store_operations_are_ordered_witness :
  exists ops,
    store_ops (post "https://example.com/a")
      (sample_world "aaaa1111" (BlobResponded true)) []
    = ops ++ [OpPut].
Proof.
  apply (proj2 (store_operations_are_ordered (post "https://example.com/a")
                  (sample_world "aaaa1111" (BlobResponded true)) [])
           (sample_item "aaaa1111" "https://example.com/a")).
  vm_compute; reflexivity.
Defined.

Lemma put_keeps_other_blobs (d : document) (rank : nat) (st : store) :
  filter (fun b => negb (is_pending b)) (put d rank st)
  = filter (fun b => negb (is_pending b)) st.
Proof.
  unfold put. destruct (find_pending st).
  - induction st as [|a st IH]; [reflexivity|]. cbn [map filter].
    destruct (is_pending a) eqn:Ha.
    + rewrite is_pending_own. cbn [negb]. exact IH.
    + rewrite Ha. cbn [negb]. now rewrite IH.
  - rewrite <- (firstn_skipn rank st) at 3.
    rewrite !filter_app. cbn [filter]. now rewrite is_pending_own.
Qed.

(** X10: no request changes a blob other than the queue document: the
    blobs at other paths are the same, in the same order, after the request
    as before. *)
Theorem other_blobs_are_untouched (req : request) (w : world) (st : store) :
  filter (fun b => negb (is_pending b)) (after req w st)
  = filter (fun b => negb (is_pending b)) st.
Proof.
  destruct (handler_store_cases req w st) as [E|[item P]].
  - now rewrite E.
  - destruct (handler_success _ _ _ _ P) as (url & l & _ & _ & _ & A).
    rewrite A. apply put_keeps_other_blobs.
Qed.

(** X11: requests handled one after the other, each answered with an item
    and each reading the document the store holds, leave the queue with the
    items in the reverse order of the requests, in front of the items that
    were queued before. *)
Theorem ingestions_are_most_recent_first (rs : list (request * world))
    (st : store) (q0 items : list Item.t) :
  stored st = Some (JsonArray q0) ->
  all_reach rs st ->
  map payload_of (answers rs st) = map SuccessPayload items ->
  stored (ingest_all rs st) = Some (JsonArray (rev items ++ q0)).
Proof.
  revert st q0 items; induction rs as [|[req w] rs IH];
    intros st q0 items Hs Hr Ha.
  - destruct items; [exact Hs|discriminate].
  - destruct items as [|item items]; [discriminate|].
    cbn [answers map] in Ha. injection Ha as Hp Ha.
    destruct Hr as [Hreach Hr].
    destruct (handler_success_stored _ _ _ _ Hp) as (l & R & S).
    rewrite (read_pending_reaches _ _ _ Hreach Hs) in R.
    injection R as <-.
    cbn [ingest_all rev]. rewrite <- app_assoc. cbn [app].
    now apply IH.
Qed.

Lemma ingestions_are_most_recent_first_witness :
  let old := sample_item "0000zzzz" "https://example.com/0" in
  let w := fun rid => sample_world rid (BlobResponded true) in
  let rs := [(post "https://example.com/a", w "aaaa1111"%string);
             (post "https://example.com/b", w "bbbb2222"%string);
             (post "https://example.com/c", w "cccc3333"%string)] in
  stored (ingest_all rs [queue_blob (JsonArray [old])])
  = Some (JsonArray
            (rev [sample_item "aaaa1111" "https://example.com/a";
                  sample_item "bbbb2222" "https://example.com/b";
                  sample_item "cccc3333" "https://example.com/c"]
             ++ [old])).
Proof.
  intros old w rs.
  apply (ingestions_are_most_recent_first rs).
  - vm_compute; reflexivity.
  - cbn [all_reach rs]. repeat split; try reflexivity;
      vm_compute; discriminate.
  - vm_compute; reflexivity.
Defined.

(** * Further properties of the entry form *)

Lemma filter_other_length {A} (f : A -> js_string) (x : js_string)
    (l : list A) :
  NoDup (map f l) -> In x (map f l) ->
  S (List.length (filter (fun i => negb (js_eqb (f i) x)) l))
  = List.length l.
Proof.
  induction l as [|a l IH]; cbn [map filter]; [intros _ []|].
  intros Hnd Hin. inversion Hnd as [|y m Hny Hnd']; subst.
  destruct (js_eqb (f a) x) eqn:E; cbn [negb].
  - apply js_eqb_eq in E. subst x. cbn [List.length]. f_equal.
    clear IH Hnd Hin Hnd'. induction l as [|b l IH]; [reflexivity|].
    cbn [map filter] in *.
    destruct (js_eqb (f b) (f a)) eqn:E; cbn [negb].
    + apply js_eqb_eq in E. exfalso. apply Hny. now left.
    + cbn [List.length]. f_equal. apply IH. intros H; apply Hny. now right.
  - cbn [List.length]. f_equal. apply IH; [exact Hnd'|].
    destruct Hin as [Hin|Hin]; [|exact Hin].
    rewrite Hin, js_eqb_refl in E. discriminate.
Qed.

(** X12: deleting by id takes out of the list every item that carries the
    id and keeps the others; when the ids of the list are pairwise distinct
    and the id is listed, exactly one item goes; when the id is not listed,
    the state is unchanged. *)
Theorem delete_removes_by_id (id : js_string) (st : Form.t) :
  (forall i, In i (Form.pendingItems (handleDeletePending id st))
             <-> In i (Form.pendingItems st) /\ Item.id i <> id)
  /\ (NoDup (ids (Form.pendingItems st)) ->
      In id (ids (Form.pendingItems st)) ->
      S (List.length (Form.pendingItems (handleDeletePending id st)))
      = List.length (Form.pendingItems st))
  /\ (~ In id (ids (Form.pendingItems st)) ->
      handleDeletePending id st = st).
Proof.
  unfold handleDeletePending; cbn [Form.pendingItems]. split; [|split].
  - intros i. rewrite filter_In. split; intros [H1 H2]; split; auto.
    + intros E. rewrite E, js_eqb_refl in H2. discriminate.
    + apply negb_true_iff. destruct (js_eqb (Item.id i) id) eqn:E; auto.
      apply js_eqb_eq in E. contradiction.
  - apply filter_other_length.
  - intros Hn. destruct st as [a b c d e items g h]; cbn in *. f_equal.
    induction items as [|i items IH]; [reflexivity|].
    cbn [filter]. destruct (js_eqb (Item.id i) id) eqn:E; cbn [negb].
    + apply js_eqb_eq in E. exfalso. apply Hn. now left.
    + f_equal. apply IH. intros H; apply Hn. now right.
Qed.

Lemma delete_removes_by_id_witness :
  let a := sample_item "aaaa1111" "https://example.com/a" in
  let b := sample_item "bbbb2222" "https://example.com/b" in
  let st := fetchPendingItems (Some [b; a]) empty_form in
  S (List.length (Form.pendingItems (handleDeletePending (js "aaaa1111") st)))
  = List.length (Form.pendingItems st).
Proof.
  intros a b st.
  apply (proj1 (proj2 (delete_removes_by_id (js "aaaa1111") st))).
  - vm_compute. repeat constructor; cbn; intuition discriminate.
  - vm_compute. right; left; reflexivity.
Defined.

(** X13: an item of the inbox, once ingested, can be analysed as it is: the
    handler for the AI tab does not stop on a blank text, and when the
    analysis succeeds and the URL of the item is not blank, the record gets
    the trimmed URL of the item as its image (no image is generated), and
    the item stays in the inbox. *)
Theorem promoted_record_takes_item_url (req : request) (w : world)
    (store0 : store) (item : Item.t) (seed : N) (result : Analysis.t)
    (st : Form.t) :
  payload_of (answer req w store0) = SuccessPayload item ->
  forallb is_space (Item.url item) = false ->
  exists st' record,
    analyze seed (inr result) (handleProcessPending item st)
    = (st', Some record)
    /\ News.image record = trim (Item.url item)
    /\ News.type record = Analysis.type result
    /\ Form.pendingItems st' = Form.pendingItems st
    /\ Form.aiText st' = [] /\ Form.error st' = None.
Proof.
  intros H Hu.
  destruct (ingested_text_not_blank _ _ _ _ H) as [_ Ht].
  pose proof (trim_nonempty _ Hu) as Hi.
  unfold analyze, handleProcessPending, handleAiAnalyze;
    cbn [Form.aiText Form.aiImageInput].
  destruct (trim (Item.text item)) as [|c t]; [contradiction|].
  destruct (trim (Item.url item)) as [|d v]; [contradiction|].
  cbn [or_else]. eexists; eexists; split; [reflexivity|].
  cbn. repeat split.
Qed.

Lemma promoted_record_takes_item_url_witness :
  let item := sample_item "aaaa1111" "https://example.com/a" in
  let result := {| Analysis.title := js "BYD opens a showroom";
                   Analysis.summary := js "A new showroom in Dubai.";
                   Analysis.brand := js "BYD";
                   Analysis.type := js "sales";
                   Analysis.date := js "2025-01-13";
                   Analysis.url := None;
                   Analysis.image_keywords := Some (js "BYD showroom") |} in
  exists st' record,
    analyze 7 (inr result) (handleProcessPending item empty_form)
    = (st', Some record)
    /\ News.image record = trim (Item.url item)
    /\ News.type record = Analysis.type result
    /\ Form.pendingItems st' = Form.pendingItems empty_form
    /\ Form.aiText st' = [] /\ Form.error st' = None.
Proof.
  intros item result.
  apply (promoted_record_takes_item_url (post "https://example.com/a")
           (sample_world "aaaa1111" (BlobResponded true)) []).
  - vm_compute; reflexivity.
  - vm_compute; reflexivity.
Defined.

(** X14: when the analysis fails, no record is created, the text and the
    image input stay as they were for another try, and a message is
    shown. *)
Theorem failed_analysis_keeps_input (seed : N) (e : error) (st : Form.t) :
  trim (Form.aiText st) <> [] ->
  exists st',
    analyze seed (inl e) st = (st', None)
    /\ Form.aiText st' = Form.aiText st
    /\ Form.aiImageInput st' = Form.aiImageInput st
    /\ Form.error st' = Some (classify e)
    /\ classify e <> [].
Proof.
  intros Ht. unfold analyze, handleAiAnalyze.
  destruct (trim (Form.aiText st)); [contradiction|].
  eexists; split; [reflexivity|]. cbn. repeat split.
  unfold classify.
  destruct (_ || _); [discriminate|].
  destruct (includes _ _); discriminate.
Qed.

Lemma failed_analysis_keeps_input_witness :
  let st := handleProcessPending
              (sample_item "aaaa1111" "https://example.com/a") empty_form in
  exists st',
    analyze 7 (inl (Error (js "401 Unauthorized"))) st = (st', None)
    /\ Form.aiText st' = Form.aiText st
    /\ Form.aiImageInput st' = Form.aiImageInput st
    /\ Form.error st' = Some (classify (Error (js "401 Unauthorized")))
    /\ classify (Error (js "401 Unauthorized")) <> [].
Proof.
  intros st. apply failed_analysis_keeps_input.
  vm_compute; discriminate.
Defined.

Lemma post_answer_shape (req : request) (w : world) (st : store) :
  req_method req = POST ->
  (exists n m, answer req w st = reply n (ErrorPayload m)
               /\ ok_status n = false)
  \/ (exists item, answer req w st = reply 200 (SuccessPayload item)).
Proof.
  intros Hm. unfold answer, handler. rewrite Hm.
  destruct (falsy (env_token w)); cbn [fst snd];
    [left; now eexists 503, _|].
  destruct (req_body req) as [|[[|c u]|]]; cbn [fst snd];
    try (left; now eexists 500, _); try (left; now eexists 400, _).
  destruct (attempt (c :: u) w st) as [[[e|newItem] st'] ops]; cbn [fst snd].
  - left; now eexists 500, _.
  - right; now eexists.
Qed.

Lemma submit_error_shown (n : N) (m : js_string)
    (refresh : option (list Item.t)) (st : Form.t) :
  Form.spiderUrl st <> [] -> ok_status n = false ->
  exists m',
    handleSpiderSubmit (inr (reply n (ErrorPayload m))) refresh st
    = with_error m' st
    /\ m' <> [].
Proof.
  intros Hu Hok. unfold handleSpiderSubmit.
  destruct (Form.spiderUrl st); [contradiction|].
  cbn [payload_of status reply json_error]. rewrite Hok. cbn [negb].
  destruct m as [|c m]; cbn [falsy].
  - eexists; split; [reflexivity|]. vm_compute; discriminate.
  - eexists; split; [reflexivity|]. discriminate.
Qed.

(** X15: a URL submitted from the inbox to the handler either is ingested,
    and then the field is emptied, no error is shown and the list is the
    refreshed one; or it is not, and then the store is as before, the field
    and the list are kept, and a message that is not empty is shown. *)
Theorem spider_submit_outcome (w : world) (store0 : store)
    (refresh : option (list Item.t)) (st : Form.t) :
  Form.spiderUrl st <> [] ->
  let res := answer (spider_request st) w store0 in
  let st' := handleSpiderSubmit (inr res) refresh st in
  (exists item,
      payload_of res = SuccessPayload item
      /\ Form.error st' = None /\ Form.spiderUrl st' = []
      /\ Form.pendingItems st'
         = match refresh with
           | Some data => data
           | None => Form.pendingItems st
           end)
  \/ ((forall item, payload_of res <> SuccessPayload item)
      /\ after (spider_request st) w store0 = store0
      /\ (exists m, Form.error st' = Some m /\ m <> [])
      /\ Form.spiderUrl st' = Form.spiderUrl st
      /\ Form.pendingItems st' = Form.pendingItems st).
Proof.
  intros Hu res st'. subst st'.
  destruct (post_answer_shape (spider_request st) w store0 eq_refl)
    as [(n & m & E & Hok)|(item & E)]; fold res in E.
  - right.
    assert (N : forall item, payload_of res <> SuccessPayload item)
      by (intros item; rewrite E; discriminate).
    split; [exact N|].
    split.
    { destruct (handler_store_cases (spider_request st) w store0)
        as [A|[item A]]; [exact A|now contradiction (N item)]. }
    rewrite E.
    destruct (submit_error_shown n m refresh st Hu Hok) as (m' & -> & Hm').
    cbn. repeat split. now exists m'.
  - left. exists item. rewrite E. split; [reflexivity|].
    unfold handleSpiderSubmit.
    destruct (Form.spiderUrl st); [contradiction|].
    cbn [payload_of status reply json_error].
    change (ok_status 200) with true. cbn [negb].
    destruct refresh; cbn; repeat split.
Qed.

Lemma spider_submit_outcome_witness :
  let st := {| Form.activeTab := SpiderTab;
               Form.isProcessing := false;
               Form.error := Some (js "old error");
               Form.spiderUrl := js "https://example.com/a";
               Form.isSpidering := false;
               Form.pendingItems := [];
               Form.aiText := [];
               Form.aiImageInput := [] |} in
  let w := sample_world "aaaa1111" (BlobResponded true) in
  let st' := handleSpiderSubmit (inr (answer (spider_request st) w []))
               None st in
  Form.error st' = None /\ Form.spiderUrl st' = [].
Proof.
  intros st w st'.
  assert (Hu : Form.spiderUrl st <> []) by (vm_compute; discriminate).
  destruct (spider_submit_outcome w [] None st Hu)
    as [(item & _ & He & Hs & _)|(Hn & _)].
  - split; [exact He|exact Hs].
  - exfalso.
    apply (Hn (sample_item "aaaa1111" "https://example.com/a")).
    vm_compute; reflexivity.
Defined.

(** ** The generated image URL *)

Lemma unreserved_digit (c : N) : 48 <= c <= 57 -> unreserved c = true.
Proof.
  intros [H1 H2]. unfold unreserved.
  apply N.leb_le in H1; apply N.leb_le in H2. rewrite H1, H2.
  cbn [andb]. now rewrite !orb_true_r.
Qed.

Lemma unreserved_upper (c : N) : 65 <= c <= 90 -> unreserved c = true.
Proof.
  intros [H1 H2]. unfold unreserved.
  apply N.leb_le in H1; apply N.leb_le in H2. now rewrite H1, H2.
Qed.

Lemma hex_digit_safe (n : N) : n < 16 -> uri_safe (hex_digit n) = true.
Proof.
  intros H. unfold uri_safe, hex_digit.
  destruct (N.ltb_spec n 10).
  - rewrite unreserved_digit; [reflexivity|lia].
  - rewrite unreserved_upper; [reflexivity|lia].
Qed.

Lemma percent_safe (b : N) : b < 256 -> forallb uri_safe (percent b) = true.
Proof.
  intros H. unfold percent. cbn [forallb].
  rewrite !hex_digit_safe.
  - unfold uri_safe. now rewrite N.eqb_refl, orb_true_r.
  - apply N.mod_lt. discriminate.
  - apply N.Div0.div_lt_upper_bound; exact H.
Qed.

Lemma mod_64_byte (a : N) : 128 + a mod 64 < 256.
Proof. pose proof (N.mod_lt a 64 ltac:(discriminate)). lia. Qed.

Lemma utf8_encode_bytes (cp : N) :
  cp < 2097152 -> Forall (fun b => b < 256) (utf8_encode cp).
Proof.
  intros H. unfold utf8_encode.
  destruct (N.ltb_spec cp 128); [repeat constructor; lia|].
  destruct (N.ltb_spec cp 2048).
  { repeat constructor; [|apply mod_64_byte].
    assert (cp / 64 < 32) by (apply N.Div0.div_lt_upper_bound; lia). lia. }
  destruct (N.ltb_spec cp 65536).
  { repeat constructor; try apply mod_64_byte.
    assert (cp / 4096 < 16) by (apply N.Div0.div_lt_upper_bound; lia). lia. }
  repeat constructor; try apply mod_64_byte.
  assert (cp / 262144 < 8) by (apply N.Div0.div_lt_upper_bound; lia). lia.
Qed.

Lemma encode_point_safe (cp : N) :
  cp < 2097152 -> forallb uri_safe (encode_point cp) = true.
Proof.
  intros H. unfold encode_point.
  destruct (unreserved cp) eqn:U.
  - cbn [forallb]. unfold uri_safe. now rewrite U.
  - pose proof (utf8_encode_bytes cp H) as B.
    induction B as [|b l Hb _ IH]; [reflexivity|].
    cbn [flat_map]. rewrite forallb_app, (percent_safe b Hb). exact IH.
Qed.

Lemma code_points_cons (c : N) (r : js_string) :
  code_points (c :: r)
  = if is_high c then
      match r with
      | d :: r' =>
          if is_low d then
            option_map (cons (65536 + (c - 55296) * 1024 + (d - 56320)))
              (code_points r')
          else None
      | [] => None
      end
    else if is_low c then None
    else option_map (cons c) (code_points r).
Proof. reflexivity. Qed.

Lemma code_points_bounded (n : nat) (s : js_string) (cps : list N) :
  (List.length s <= n)%nat -> well_formed s ->
  code_points s = Some cps -> Forall (fun cp => cp < 2097152) cps.
Proof.
  revert s cps; induction n as [|n IH]; intros s cps Hn Hw.
  - destruct s; [|cbn in Hn; lia]. intros [= <-]. constructor.
  - destruct s as [|c r]; [intros [= <-]; constructor|].
    inversion Hw as [|? ? Hc Hr]; subst. rewrite code_points_cons.
    destruct (is_high c) eqn:Hh.
    + destruct r as [|d r']; [discriminate|].
      inversion Hr as [|? ? Hd Hr']; subst.
      destruct (is_low d) eqn:Hl; [|discriminate].
      assert (B : 65536 + (c - 55296) * 1024 + (d - 56320) < 2097152).
      { unfold is_high, is_low in *.
        apply andb_prop in Hh as [_ Hh]; apply andb_prop in Hl as [_ Hl].
        apply N.leb_le in Hh; apply N.leb_le in Hl. lia. }
      revert B. generalize (65536 + (c - 55296) * 1024 + (d - 56320)).
      intros cp B.
      destruct (code_points r') as [cps'|] eqn:E; [|discriminate].
      intros [= <-]. constructor; [exact B|].
      apply (IH r'); auto. cbn in Hn; lia.
    + destruct (is_low c); [discriminate|].
      destruct (code_points r) as [cps'|] eqn:E; [|discriminate].
      intros [= <-]. constructor; [unfold well_formed in Hw; lia|].
      apply (IH r); auto. cbn in Hn; lia.
Qed.

Lemma encodeURIComponent_safe (s enc : js_string) :
  well_formed s -> encodeURIComponent s = Some enc ->
  forallb uri_safe enc = true.
Proof.
  intros Hw. unfold encodeURIComponent.
  destruct (code_points s) as [cps|] eqn:E; [|discriminate].
  intros [= <-].
  pose proof (code_points_bounded _ s cps (le_n _) Hw E) as B. clear E.
  induction B as [|cp l Hcp _ IH]; [reflexivity|].
  cbn [flat_map]. rewrite forallb_app, (encode_point_safe cp Hcp). exact IH.
Qed.

Lemma well_formed_check (s : js_string) :
  forallb (fun c => c <? 65536) s = true -> well_formed s.
Proof.
  intros H. apply Forall_forall. intros c Hc.
  rewrite forallb_forall in H. now apply N.ltb_lt, H.
Qed.



Lemma code_points_plain (s : js_string) :
  forallb (fun c => negb (is_high c) && negb (is_low c)) s = true ->
  code_points s = Some s.
Proof.
  induction s as [|c s IH]; [reflexivity|].
  cbn [forallb]. rewrite code_points_cons. intros H.
  apply andb_prop in H as [Hc Hs]. apply andb_prop in Hc as [Hh Hl].
  apply negb_true_iff in Hh; apply negb_true_iff in Hl.
  rewrite Hh, Hl, (IH Hs). reflexivity.
Qed.

(** X17: a manual submission whose brand and title hold no surrogate code
    unit always creates a record, and the record has the fields of the form
    with only the image replaced. *)
Theorem manual_submit_adds_record (seed : N) (formData : News.t) :
  forallb (fun c => negb (is_high c) && negb (is_low c))
    (News.brand formData ++ News.title formData) = true ->
  exists image,
    image <> []
    /\ handleManualSubmit seed formData
       = Some {| News.title := News.title formData;
                 News.summary := News.summary formData;
                 News.brand := News.brand formData;
                 News.type := News.type formData;
                 News.date := News.date formData;
                 News.url := News.url formData;
                 News.source := News.source formData;
                 News.image := image |}.
Proof.
  intros H. rewrite forallb_app in H. apply andb_prop in H as [Hb Ht].
  assert (P : code_points (News.brand formData ++ [SP] ++ News.title formData
                           ++ js " automotive") <> None).
  { rewrite code_points_plain; [discriminate|].
    rewrite !forallb_app, Hb, Ht. reflexivity. }
  unfold handleManualSubmit.
  destruct (or_else _ _) as [img|] eqn:O.
  - exists img. split; [|reflexivity].
    destruct (or_else_trim _ _ _ O) as [[_ G]|[_ [_ Hne]]]; [|exact Hne].
    exact (generateImageUrl_nonempty _ _ _ G).
  - exfalso. revert O. unfold or_else, generateImageUrl, encodeURIComponent.
    destruct (trim (News.image formData)); [|discriminate].
    destruct (code_points _); [discriminate|]. now contradiction P.
Qed.

Lemma manual_submit_adds_record_witness :
  exists image,
    image <> []
    /\ handleManualSubmit 7
         {| News.title := js "比亚迪 opens"; News.summary := [];
            News.brand := js "BYD"; News.type := js "sales";
            News.date := js "2025-01-13"; News.url := [];
            News.source := js "人工录入"; News.image := [] |}
       = Some {| News.title := js "比亚迪 opens"; News.summary := [];
                 News.brand := js "BYD"; News.type := js "sales";
                 News.date := js "2025-01-13"; News.url := [];
                 News.source := js "人工录入"; News.image := image |}.
Proof.
  apply (manual_submit_adds_record 7
           {| News.title := js "比亚迪 opens"; News.summary := [];
              News.brand := js "BYD"; News.type := js "sales";
              News.date := js "2025-01-13"; News.url := [];
              News.source := js "人工录入"; News.image := [] |}).
  vm_compute; reflexivity.
Defined.

(** * Further properties of [extractContent] *)

Lemma star_greedy_inv (p : N -> bool) (k : Regex.cont) (s : js_string)
    (caps : list js_string) (r : Regex.result) :
  Regex.star_greedy p k s caps = Some r ->
  exists v s', s = v ++ s' /\ forallb p v = true /\ k s' caps = Some r.
Proof.
  induction s as [|x s IH]; cbn [Regex.star_greedy].
  - intros H. now exists [], [].
  - destruct (p x) eqn:Hx.
    + destruct (Regex.star_greedy p k s caps) as [r'|] eqn:E.
      * intros [= <-]. destruct (IH eq_refl) as (v & s' & -> & Hv & Hk).
        exists (x :: v), s'. cbn [forallb app]. now rewrite Hx, Hv.
      * intros H. now exists [], (x :: s).
    + intros H. now exists [], (x :: s).
Qed.

(** What the group of [title_re] captures. *)
Lemma title_tail_capture (s : js_string) (caps : list js_string)
    (rest : js_string) :
  title_tail s [] = Some (caps, rest) ->
  exists X, caps = [X] /\ X <> [] /\ forallb (not_chr LT) X = true.
Proof.
  unfold title_tail. cbn [Regex.run]. intros H.
  apply star_greedy_inv in H as (v1 & s1 & _ & _ & H).
  destruct s1 as [|g s2]; [discriminate|].
  destruct (is_chr GT g); [|discriminate].
  destruct s2 as [|y s3]; [discriminate|].
  destruct (not_chr LT y) eqn:Hy; [|discriminate].
  apply star_greedy_inv in H as (v & s' & -> & Hv & H).
  rewrite run_lit_ci in H.
  destruct (strip_ci (js "</title>") s'); [|discriminate].
  pose proof (firstn_prefix (y :: v) s') as F. cbn [app] in F.
  rewrite F in H. cbn [app] in H.
  unfold K0 in H. cbv beta in H. injection H as <- _.
  exists (y :: v). split; [reflexivity|]. split; [discriminate|].
  cbn [forallb]. now rewrite Hy, Hv.
Qed.

Lemma search_title_capture (s : js_string) (caps : list js_string)
    (rest : js_string) :
  Regex.search title_re s = Some (caps, rest) ->
  exists X, caps = [X] /\ X <> [] /\ forallb (not_chr LT) X = true.
Proof.
  induction s as [|x s IH]; cbn [Regex.search]; rewrite exec_title_eq.
  - discriminate.
  - destruct (strip_ci (js "<title") (x :: s)) as [s'|]; [|exact IH].
    destruct (title_tail s' []) as [[caps' rest']|] eqn:E; [|exact IH].
    intros [= <- <-]. exact (title_tail_capture _ _ _ E).
Qed.

Lemma trim_start_incl (s : js_string) (c : N) :
  In c (trim_start s) -> In c s.
Proof.
  destruct (trim_start_suffix s) as [p Hp]. intros H.
  rewrite Hp. apply in_or_app. now right.
Qed.

Lemma trim_incl (s : js_string) (c : N) : In c (trim s) -> In c s.
Proof.
  unfold trim. intros H. apply in_rev in H.
  apply trim_start_incl in H. apply in_rev in H.
  now apply trim_start_incl.
Qed.

(** X18: the title that [extractContent] returns holds no [<] and has no
    white space at either end, whatever the input. *)
Theorem title_is_clean (html : js_string) :
  ~ In LT (title (extractContent html))
  /\ (forall c r, title (extractContent html) = c :: r ->
                  is_space c = false)
  /\ (forall r c, title (extractContent html) = r ++ [c] ->
                  is_space c = false).
Proof.
  unfold extractContent; cbn [title]. unfold extract_title.
  destruct (Regex.search title_re html) as [[caps rest]|] eqn:E.
  - destruct (search_title_capture _ _ _ E) as (X & -> & _ & HX).
    cbn [nth]. split; [|split].
    + intros H. apply trim_incl in H.
      rewrite forallb_forall in HX. specialize (HX LT H). discriminate.
    + intros c r. apply trim_head.
    + intros r c. apply trim_last.
  - assert (U : untitled = trim untitled) by (vm_compute; reflexivity).
    split; [|split].
    + vm_compute. intuition discriminate.
    + intros c r. rewrite U. apply trim_head.
    + intros r c. rewrite U. apply trim_last.
Qed.

Lemma title_is_clean_witness :
  is_space (hd 0 (title (extractContent sample_html))) = false.
Proof.
  refine (proj1 (proj2 (title_is_clean sample_html))
            (hd 0 (title (extractContent sample_html)))
            (tl (title (extractContent sample_html))) _).
  vm_compute; reflexivity.
Defined.

Lemma replace_from_incl (r : regex) (rep s : js_string) (skip : nat)
    (c : N) :
  In c (Regex.replace_from r rep s skip) -> In c s \/ In c rep.
Proof.
  revert skip; induction s as [|x s IH]; intros skip;
    cbn [Regex.replace_from].
  - destruct (Regex.exec r []); [now right|intros []].
  - destruct skip as [|n].
    + destruct (Regex.exec r (x :: s)) as [[caps rest]|].
      * destruct (List.length (x :: s) - List.length rest)%nat;
          intros H; apply in_app_or in H as [H|H]; auto.
        -- destruct H as [<-|H]; [left; now left|].
           destruct (IH _ H); [left; now right|now right].
        -- destruct (IH _ H); [left; now right|now right].
      * intros [<-|H]; [left; now left|].
        destruct (IH _ H); [left; now right|now right].
    + intros H. destruct (IH _ H); [left; now right|now right].
Qed.

Lemma replace_all_incl (r : regex) (rep s : js_string) (c : N) :
  In c (Regex.replace_all r rep s) -> In c s \/ In c rep.
Proof. apply replace_from_incl. Qed.

Lemma tab_pass_has_no_tab (s : js_string) :
  ~ In TAB (Regex.replace_all tab_re [SP] s).
Proof.
  unfold Regex.replace_all.
  induction s as [|x s IH]; cbn [Regex.replace_from]; [intros []|].
  unfold tab_re at 1, Regex.exec at 1. cbn [Regex.run].
  unfold is_chr at 1. destruct (N.eqb_spec x TAB) as [->|Hx].
  - replace (List.length (TAB :: s) - List.length s)%nat with 1%nat
      by (cbn [List.length]; lia).
    cbn [app]. intros [H|H]; [discriminate|now apply IH].
  - intros [H|H]; [now apply Hx|now apply IH].
Qed.

Lemma firstn_In {A} (n : nat) (l : list A) (x : A) :
  In x (firstn n l) -> In x l.
Proof.
  intros H. rewrite <- (firstn_skipn n l). apply in_or_app. now left.
Qed.

(** X19: the text that [extractContent] returns holds no tab, whatever the
    input. *)
Theorem text_has_no_tab (html : js_string) :
  ~ In TAB (text (extractContent html)).
Proof.
  unfold extractContent; cbn [text]. unfold clean_text. intros H.
  apply firstn_In in H. apply trim_incl in H.
  apply replace_all_incl in H as [H|[H|[]]]; [|discriminate].
  apply replace_all_incl in H as [H|[H|[]]]; [|discriminate].
  exact (tab_pass_has_no_tab _ H).
Qed.

Lemma replace_all_needs_lt (r : regex) (rep s : js_string) :
  Regex.exec r [] = None ->
  (forall x s', x <> LT -> Regex.exec r (x :: s') = None) ->
  ~ In LT s -> Regex.replace_all r rep s = s.
Proof.
  intros H0 H1. unfold Regex.replace_all.
  induction s as [|x s IH]; intros Hs; cbn [Regex.replace_from].
  - now rewrite H0.
  - rewrite H1 by (intros ->; apply Hs; now left).
    f_equal. apply IH. intros H; apply Hs; now right.
Qed.

Lemma ci_chr_lt (x : N) : x <> LT -> ci_chr LT x = false.
Proof.
  intros Hx. destruct (ci_chr LT x) eqn:E; [|reflexivity].
  apply ci_chr_low in E; [contradiction|reflexivity].
Qed.

Lemma strip_block_plain (tag : string) (s : js_string) :
  ~ In LT s -> strip_block tag s = s.
Proof.
  intros Hs. unfold strip_block.
  apply replace_all_needs_lt; [| |exact Hs].
  - now rewrite exec_block_eq.
  - intros x s' Hx. rewrite exec_block_eq. cbn [strip_ci].
    now rewrite ci_chr_lt.
Qed.

Lemma occurs_ci_plain (pat s : js_string) :
  ~ In LT s -> occurs_ci (LT :: pat) s = false.
Proof.
  induction s as [|x s IH]; intros Hs; cbn [occurs_ci strip_ci];
    [reflexivity|].
  rewrite ci_chr_lt by (intros ->; apply Hs; now left).
  apply IH. intros H; apply Hs; now right.
Qed.

(** X20: an input that holds no [<] loses no text: no pass that strips
    blocks or tags changes it, the title is the placeholder, and the text
    is the input with tabs and [&nbsp;] turned into spaces, blank lines
    collapsed and the ends trimmed, cut at 5000 code units. *)
Theorem plain_input_keeps_its_text (s : js_string) :
  ~ In LT s ->
  strip_blocks s = s
  /\ Regex.replace_all tag_re [NL] s = s
  /\ extractContent s
     = {| title := untitled;
          text := firstn 5000
                    (trim
                       (Regex.replace_all blank_re [NL]
                          (Regex.replace_all nbsp_re [SP]
                             (Regex.replace_all tab_re [SP] s)))) |}.
Proof.
  intros Hs.
  assert (B : strip_blocks s = s).
  { unfold strip_blocks. rewrite (strip_block_plain "script" s Hs).
    rewrite (strip_block_plain "style" s Hs).
    rewrite (replace_all_needs_lt comment_re [] s);
      [|reflexivity| |exact Hs].
    - rewrite (strip_block_plain "nav" s Hs).
      rewrite (strip_block_plain "header" s Hs).
      rewrite (strip_block_plain "footer" s Hs).
      rewrite (strip_block_plain "iframe" s Hs).
      exact (strip_block_plain "svg" s Hs).
    - intros x s' Hx. unfold Regex.exec, comment_re.
      change (js "<!--") with [LT; 33; 45; 45]. cbn [lit fold_right Regex.run].
      unfold is_chr at 1. apply N.eqb_neq in Hx. now rewrite Hx. }
  assert (T : Regex.replace_all tag_re [NL] s = s).
  { apply replace_all_needs_lt; [reflexivity| |exact Hs].
    intros x s' Hx. unfold Regex.exec, tag_re. cbn [Regex.run].
    unfold is_chr at 1. apply N.eqb_neq in Hx. now rewrite Hx. }
  split; [exact B|]. split; [exact T|].
  unfold extractContent, extract_title, clean_text.
  rewrite B, T.
  change (js "<title") with (LT :: js "title").
  now rewrite (search_title_absent s (occurs_ci_plain (js "title") s Hs)).
Qed.

Lemma plain_input_keeps_its_text_witness :
  extractContent (js "BYD	opens&nbsp;a showroom

in Dubai ")
  = {| title := untitled; text := js "BYD opens a showroom
in Dubai" |}.
Proof.
  refine (eq_trans
            (proj2 (proj2 (plain_input_keeps_its_text
                             (js "BYD	opens&nbsp;a showroom

in Dubai ") _))) _).
  - vm_compute. intuition discriminate.
  - vm_compute; reflexivity.
Defined.

(** ** Blank lines *)

Lemma exec_blank_eq (x : N) (s : js_string) :
  Regex.exec blank_re (x :: s)
  = if x =? NL then Regex.star_greedy is_space blank_k s [] else None.
Proof. reflexivity. Qed.

Lemma star_greedy_some (p : N -> bool) (k : Regex.cont) (s : js_string)
    (caps : list js_string) (r : Regex.result) :
  k s caps = Some r -> Regex.star_greedy p k s caps <> None.
Proof.
  intros H. destruct s as [|x s]; cbn [Regex.star_greedy];
    [now rewrite H|].
  destruct (p x); [|now rewrite H].
  destruct (Regex.star_greedy p k s caps); [discriminate|now rewrite H].
Qed.

(** A match of the line pattern ends at the last line end of the run of
    white space: what is left does not start with a line end. *)
Lemma blank_run_end (s : js_string) (caps : list js_string)
    (rest : js_string) :
  Regex.star_greedy is_space blank_k s [] = Some (caps, rest) ->
  starts_nl rest = false /\ exists m, s = m ++ rest /\ m <> [].
Proof.
  induction s as [|x s IH]; cbn [Regex.star_greedy].
  - discriminate.
  - assert (K : blank_k (x :: s) [] = Some (caps, rest) ->
                starts_nl rest = false ->
                starts_nl rest = false
                /\ exists m, x :: s = m ++ rest /\ m <> []).
    { unfold blank_k; cbn [Regex.run]. unfold is_chr.
      destruct (x =? NL); [|discriminate].
      intros [= <- <-] Hn. split; [exact Hn|].
      exists [x]. split; [reflexivity|discriminate]. }
    destruct (is_space x) eqn:Hsp.
    + destruct (Regex.star_greedy is_space blank_k s []) as [r|] eqn:E.
      * intros [= ->]. destruct (IH eq_refl) as (Hn & m & -> & _).
        split; [exact Hn|]. exists (x :: m). split; [reflexivity|discriminate].
      * intros H. apply K; [exact H|].
        revert H. unfold blank_k at 1; cbn [Regex.run]. unfold is_chr.
        destruct (x =? NL); [|discriminate]. intros [= <- <-].
        destruct s as [|y s']; [reflexivity|]. cbn [starts_nl].
        destruct (N.eqb_spec y NL) as [->|]; [|reflexivity].
        exfalso. apply (star_greedy_some is_space blank_k (NL :: s') []
                          ([], s')); [reflexivity|exact E].
    + intros H. exfalso. revert H.
      unfold blank_k; cbn [Regex.run]. unfold is_chr.
      destruct (N.eqb_spec x NL) as [->|]; [|discriminate].
      vm_compute in Hsp. discriminate Hsp.
Qed.

Lemma exec_blank_end (s : js_string) (caps : list js_string)
    (rest : js_string) :
  Regex.exec blank_re s = Some (caps, rest) ->
  starts_nl s = true /\ starts_nl rest = false
  /\ exists m, s = m ++ rest /\ (2 <= List.length m)%nat.
Proof.
  destruct s as [|x s]; [discriminate|]. rewrite exec_blank_eq.
  cbn [starts_nl]. destruct (x =? NL); [|discriminate].
  intros H. apply blank_run_end in H as (Hn & m & -> & Hm).
  split; [reflexivity|]. split; [exact Hn|].
  exists (x :: m). split; [reflexivity|].
  destruct m; [contradiction|cbn; lia].
Qed.

Lemma exec_blank_double (s : js_string) :
  Regex.exec blank_re (NL :: NL :: s) <> None.
Proof.
  rewrite exec_blank_eq. change (NL =? NL) with true. cbv iota.
  now apply (star_greedy_some is_space blank_k (NL :: s) [] ([], s)).
Qed.

Lemma includes_nlnl_cons (x : N) (s : js_string) :
  includes (x :: s) [NL; NL]
  = ((x =? NL) && starts_nl s) || includes s [NL; NL].
Proof.
  cbn [includes starts_with]. f_equal. rewrite (N.eqb_sym NL x). f_equal.
  destruct s as [|y s]; [reflexivity|]. cbn [starts_nl].
  now rewrite (N.eqb_sym NL y), andb_true_r.
Qed.

(** The output of the pass that collapses blank lines, by the length of
    the input: it holds no two line ends in a row, and it starts with a
    line end only when the input does. *)
Lemma blank_pass_bounded (n : nat) (s : js_string) :
  (List.length s <= n)%nat ->
  includes (Regex.replace_from blank_re [NL] s 0) [NL; NL] = false
  /\ (starts_nl (Regex.replace_from blank_re [NL] s 0) = true ->
      starts_nl s = true).
Proof.
  revert s; induction n as [|n IH]; intros s Hn.
  - destruct s; [|cbn in Hn; lia]. split; [reflexivity|discriminate].
  - destruct s as [|x s]; [split; [reflexivity|discriminate]|].
    cbn [Regex.replace_from].
    destruct (Regex.exec blank_re (x :: s)) as [[caps rest]|] eqn:E.
    + apply exec_blank_end in E as (Hs & Hr & m & E & Hm).
      destruct m as [|x' m]; [cbn in Hm; lia|].
      cbn [app] in E. injection E as <- ->.
      replace (List.length (x :: m ++ rest) - List.length rest)%nat
        with (S (List.length m))
        by (cbn [List.length]; rewrite length_app; lia).
      rewrite replace_from_skip.
      destruct (IH rest) as [I1 I2].
      { cbn in Hn. rewrite length_app in Hn. lia. }
      cbn [app]. rewrite includes_nlnl_cons, I1.
      split; [|intros _; exact Hs].
      destruct (starts_nl (Regex.replace_from blank_re [NL] rest 0)) eqn:S;
        [|now rewrite andb_false_r].
      rewrite (I2 eq_refl) in Hr. discriminate.
    + destruct (IH s) as [I1 I2]; [cbn in Hn; lia|].
      rewrite includes_nlnl_cons, I1. split; [|intros H; exact H].
      destruct (N.eqb_spec x NL) as [->|]; [|reflexivity].
      destruct (starts_nl (Regex.replace_from blank_re [NL] s 0)) eqn:S;
        [|reflexivity].
      specialize (I2 eq_refl). destruct s as [|y s]; [discriminate|].
      cbn [starts_nl] in I2. apply N.eqb_eq in I2. subst y.
      now contradiction (exec_blank_double s).
Qed.

Lemma starts_with_app (pat a c : js_string) :
  starts_with pat a = true -> starts_with pat (a ++ c) = true.
Proof.
  revert a; induction pat as [|p pat IH]; intros a; [reflexivity|].
  destruct a as [|x a]; cbn [starts_with app]; [discriminate|].
  intros H. apply andb_prop in H as [H1 H2]. now rewrite H1, (IH a H2).
Qed.

Lemma includes_app_l (a c pat : js_string) :
  includes a pat = true -> includes (a ++ c) pat = true.
Proof.
  induction a as [|x a IH].
  - cbn [includes app]. rewrite orb_false_r. intros H.
    destruct pat; [|discriminate]. now destruct c.
  - cbn [includes app]. intros H. apply orb_prop in H as [H|H].
    + change (x :: a ++ c) with ((x :: a) ++ c).
      now rewrite (starts_with_app _ _ c H).
    + now rewrite (IH H), orb_true_r.
Qed.

Lemma includes_app_r (a b pat : js_string) :
  includes b pat = true -> includes (a ++ b) pat = true.
Proof.
  intros H. induction a as [|x a IH]; [exact H|].
  cbn [includes app]. now rewrite IH, orb_true_r.
Qed.

Lemma trim_substring (s : js_string) : exists p q, s = p ++ trim s ++ q.
Proof.
  unfold trim.
  destruct (trim_start_suffix s) as [p Hp].
  destruct (trim_start_suffix (rev (trim_start s))) as [q Hq].
  exists p, (rev q).
  rewrite <- rev_app_distr, <- Hq, rev_involutive. exact Hp.
Qed.

(** X21: the text that [extractContent] returns holds no empty line: no
    two line ends follow each other, whatever the input. *)
Theorem text_has_no_empty_line (html : js_string) :
  includes (text (extractContent html)) [NL; NL] = false.
Proof.
  unfold extractContent; cbn [text]. unfold clean_text.
  set (t := Regex.replace_all nbsp_re [SP] _).
  destruct (blank_pass_bounded _ t (le_n _)) as [B _].
  fold (Regex.replace_all blank_re [NL] t) in B.
  destruct (trim_substring (Regex.replace_all blank_re [NL] t))
    as (p & q & E).
  destruct (includes (firstn 5000 (trim (Regex.replace_all blank_re [NL] t)))
              [NL; NL]) eqn:I; [|reflexivity].
  rewrite <- B, E. symmetry.
  apply includes_app_r, includes_app_l.
  rewrite <- (firstn_skipn 5000 (trim _)). now apply includes_app_l.
Qed.

(** * A property of the dashboard *)

Lemma sentiment_exclusive (n : Shown.t) :
  ((if sentiment_is "positive" n then 1 else 0)
   + (if falsy (Shown.sentiment n) || sentiment_is "neutral" n
      then 1 else 0)
   + (if sentiment_is "negative" n then 1 else 0)
   = if sentiment_known n then 1 else 0)%nat.
Proof.
  unfold sentiment_known, sentiment_is.
  destruct (Shown.sentiment n) as [s|]; [|reflexivity].
  destruct (js_eqb s (js "positive")) eqn:P.
  { apply js_eqb_eq in P. subst s. reflexivity. }
  destruct (js_eqb s (js "neutral")) eqn:U.
  { apply js_eqb_eq in U. subst s. reflexivity. }
  destruct (js_eqb s (js "negative")) eqn:G.
  { apply js_eqb_eq in G. subst s. reflexivity. }
  destruct s; reflexivity.
Qed.

Lemma filter_length_cons {A} (f : A -> bool) (a : A) (l : list A) :
  List.length (filter f (a :: l))
  = ((if f a then 1 else 0) + List.length (filter f l))%nat.
Proof. cbn [filter]. now destruct (f a). Qed.

(** X22: the three bars of the sentiment chart count every item at most
    once: their sum is the number of items whose sentiment is missing or
    one of positive, neutral, negative; when every item is such, the sum is
    the number of items (a missing sentiment counts as neutral). *)
Theorem sentiment_bars_count_items_once (data : list Shown.t)
    (name : js_string) :
  (positive (calc data name) + neutral (calc data name)
   + negative (calc data name)
   = List.length (filter sentiment_known data))%nat
  /\ (forallb sentiment_known data = true ->
      (positive (calc data name) + neutral (calc data name)
       + negative (calc data name)
       = List.length data)%nat).
Proof.
  assert (E : (positive (calc data name) + neutral (calc data name)
               + negative (calc data name)
               = List.length (filter sentiment_known data))%nat).
  { unfold calc; cbn [positive neutral negative].
    induction data as [|n data IH]; [reflexivity|].
    rewrite !filter_length_cons, <- IH, <- (sentiment_exclusive n). lia. }
  split; [exact E|].
  intros H. rewrite E. f_equal. clear E.
  induction data as [|n data IH]; [reflexivity|].
  cbn [forallb] in H. apply andb_prop in H as [Hn Hd].
  cbn [filter]. rewrite Hn. f_equal. exact (IH Hd).
Qed.

Lemma sentiment_bars_count_items_once_witness :
  let data := [shown (Some "positive"%string); shown None;
               shown (Some "negative"%string);
               shown (Some "neutral"%string)] in
  (positive (calc data (js "BYD")) + neutral (calc data (js "BYD"))
   + negative (calc data (js "BYD")) = 4)%nat.
Proof.
  intros data.
  apply (proj2 (sentiment_bars_count_items_once data (js "BYD"))).
  vm_compute; reflexivity.
Defined.
